(** * youtube-upload: the support library [youtube_upload/lib.py]

    A shallow embedding of the video-id validator and extractors, of the
    retry wrapper [retriable_exceptions] and of the scoped SIGINT context
    [default_sigint], with the properties of the specification that concern
    them.

    Python values are modelled as follows.
    - A [str] is the list of its Unicode code points ([pystr]); [len] is
      [length], slicing is [take]/[drop], [+] is [++].
    - A [set] of characters is a [gset N].
    - An [int] is a [Z]; the duration returned by [random.uniform] is a
      rational ([Q]): the formula of [random.uniform] is kept, rounding of
      binary floating point is not modelled.
    - A raised exception is a value of an abstract type [exn] with its class
      [type_of e]; the class hierarchy is given by the proper ancestors of a
      class. *)

From Stdlib Require Import ZArith QArith Ascii String List Lia.
From stdpp Require Import base decidable option list gmap sets strings.

Close Scope Q_scope.
Local Open Scope Z_scope.

(** ** Strings *)

Abbreviation pychar := N (only parsing).
Abbreviation pystr := (list N) (only parsing).

(** [py "abc"] is the Python literal ['abc']. *)
Definition py (s : string) : pystr :=
  map N_of_ascii (list_ascii_of_string s).

(** [c in s] for a character [c]. *)
Definition char_in (c : pychar) (s : pystr) : bool := bool_decide (c ∈ s).

(** ** [check_valid_id]  (lib.py, lines 168-172) *)

Module Validate.

(** [string.ascii_letters] and [string.digits]. *)
Definition ascii_lowercase : pystr := py "abcdefghijklmnopqrstuvwxyz".
Definition ascii_uppercase : pystr := py "ABCDEFGHIJKLMNOPQRSTUVWXYZ".
Definition ascii_letters : pystr := ascii_lowercase ++ ascii_uppercase.
Definition digits : pystr := py "0123456789".

(** [al + dig + "".join(["-", "_"])] *)
Definition vid_alphabet : pystr :=
  ascii_letters ++ digits ++ concat [py "-"; py "_"].

(** [vid_chars = set(al + dig + "".join(["-", "_"]))] *)
Definition vid_chars : gset N := list_to_set vid_alphabet.

(** [s = set(list(vid)); return len(vid) == 11 and s & vid_chars == s].
    In Python [&] binds tighter than [==]. *)
Definition check_valid_id (vid : pystr) : bool :=
  let s : gset N := list_to_set vid in
  bool_decide (length vid = 11%nat) && bool_decide (s ∩ vid_chars = s).

(** The alphabet of the specification: A-Z, a-z, 0-9, '-' and '_',
    by code point. *)
Definition in_alphabet (c : pychar) : Prop :=
  (65 <= c <= 90)%N ∨ (97 <= c <= 122)%N ∨ (48 <= c <= 57)%N
  ∨ c = 45%N ∨ c = 95%N.

Definition in_alphabetb (c : pychar) : bool :=
  ((65 <=? c) && (c <=? 90) || (97 <=? c) && (c <=? 122)
   || (48 <=? c) && (c <=? 57) || (c =? 45) || (c =? 95))%N.

End Validate.

(** ** [re.split] on an alternation of literals

    [extract_vid_from_cli] hands ['|'.join(delimiters + extra_delim)] to
    [re.split].  The model covers the patterns whose only metacharacter is
    ['|']: an ordered choice between literal strings.  [re_compile] gives
    [None] on any other pattern. *)

Module Re.

(** The characters the regular-expression parser treats specially, apart
    from ['|']. *)
Definition metachars : pystr := py ".^$*+?{}[]\()".

(** [sep.join(parts)] *)
Fixpoint join (sep : pystr) (parts : list pystr) : pystr :=
  match parts with
  | [] => []
  | [p] => p
  | p :: ps => p ++ sep ++ join sep ps
  end.

(** The alternatives of a pattern, cut at each ['|'] (code point 124). *)
Fixpoint alternatives (pat : pystr) (cur : pystr) : list pystr :=
  match pat with
  | [] => [cur]
  | c :: pat' =>
      if (c =? 124)%N then cur :: alternatives pat' []
      else alternatives pat' (cur ++ [c])
  end.

Definition re_compile (pat : pystr) : option (list pystr) :=
  if forallb (λ c, negb (char_in c metachars)) pat
  then Some (alternatives pat [])
  else None.

(** [s.startswith(a)] *)
Fixpoint starts_with (a s : pystr) : bool :=
  match a, s with
  | [], _ => true
  | _ :: _, [] => false
  | x :: a', y :: s' => (x =? y)%N && starts_with a' s'
  end.

(** One match attempt at the current position: the first alternative, in
    the order written, that the subject starts with.  When [must_advance]
    is set an empty match is refused and the next alternative is tried. *)
Fixpoint sre_match (alts : list pystr) (s : pystr) (must_advance : bool)
  : option pystr :=
  match alts with
  | [] => None
  | a :: alts' =>
      if starts_with a s && negb (must_advance && bool_decide (a = []))
      then Some a
      else sre_match alts' s must_advance
  end.

(** The loop of [pattern_split]: [s] is the subject from the search
    position on, [seg] the text since the end of the last match.  A match
    closes the segment and the search resumes after it, with [must_advance]
    set when the match was empty; otherwise the search moves one character
    on; at the end of the subject the last segment is closed. *)
Fixpoint pattern_split (fuel : nat) (alts : list pystr) (s seg : pystr)
    (must_advance : bool) : list pystr :=
  match fuel with
  | O => [seg ++ s]
  | S fuel' =>
      match sre_match alts s must_advance with
      | Some a =>
          seg :: pattern_split fuel' alts (drop (length a) s) []
                   (bool_decide (a = []))
      | None =>
          match s with
          | [] => [seg]
          | c :: s' => pattern_split fuel' alts s' (seg ++ [c]) false
          end
      end
  end.

(** [re.split(pattern, string)].  Every step but the one after an empty
    match consumes a character, so [2 * len(string) + 2] steps are
    enough. *)
Definition split (pat : pystr) (s : pystr) : option (list pystr) :=
  alts ← re_compile pat;
  Some (pattern_split (2 * length s + 2) alts s [] false).

End Re.

(** ** [extract_vid_from_cli]  (lib.py, lines 163-166) *)

Module Cli.

(** The default arguments [delimiters=[',', ', ']] and [extra_delim=[]]. *)
Definition default_delimiters : list pystr := [py ","; py ", "].
Definition default_extra_delim : list pystr := [].

(** [ids = list(); ids.extend(re.split('|'.join(delimiters + extra_delim),
    vid)); return ids] *)
Definition extract_vid_from_cli (vid : pystr)
    (delimiters extra_delim : list pystr) : option (list pystr) :=
  let ids : list pystr := [] in
  parts ← Re.split (Re.join (py "|") (delimiters ++ extra_delim)) vid;
  Some (ids ++ parts).

End Cli.

(** ** Exceptions and values

    A class hierarchy is given by the proper ancestors of each class (its
    [__mro__] without the class itself); [issubclass] is reflexive as in
    Python.  [except C as exc] catches [exc] when [isinstance(exc, C)]. *)

Class Exceptions (cls exn : Type) := {
  cls_eq_dec :: EqDecision cls;
  proper_ancestors : cls → list cls;
  type_of : exn → cls;
}.

Section Classes.
Context {cls exn : Type} `{!Exceptions cls exn}.

Definition issubclass (c d : cls) : bool :=
  bool_decide (c = d) || bool_decide (d ∈ proper_ancestors c).

Definition isinstance (e : exn) (d : cls) : bool := issubclass (type_of e) d.

(** [except tuple(classes) as exc] *)
Definition caught_by (e : exn) (classes : list cls) : bool :=
  existsb (isinstance e) classes.

End Classes.

(** The values [filter_vid] returns, and those of
    [extract_vid_from_file]: [None] or a list. *)
Inductive pyval :=
| PyNone
| PyFalse
| PyStr (s : pystr).

Inductive retval :=
| RetNone
| RetList (l : list pyval).

(** Truth value, as tested by [if not v]. *)
Definition truthy (v : pyval) : bool :=
  match v with
  | PyNone | PyFalse => false
  | PyStr s => negb (bool_decide (s = []))
  end.

(** ** [filter_vid] and [extract_vid_from_file]  (lib.py, lines 135-161)

    [urlparse], [parse_qs] and the file system belong to the Python
    library; the functions are embedded over any behaviour of theirs.
    [urlparse] may raise ([ValueError] on a malformed URL).  [parse_qs]
    returns a dict from names to lists of values; each list is created
    with one element and only appended to, so it is kept as the pair of
    its first element and the rest. *)

Record ParseResult := mkParseResult {
  scheme : pystr;
  netloc : pystr;
  path : pystr;
  params : pystr;
  query : pystr;
  fragment : pystr;
}.

Class Library (exn : Type) := {
  urlparse : pystr → exn + ParseResult;
  parse_qs : pystr → gmap (list N) (list N * list (list N));
  (** [c = open(f); c.readlines(); c.close()]: the lines of the file, each
      with its line end, or the exception raised on the way. *)
  open_readlines : pystr → exn + list pystr;
}.

(** What a call leaves behind: its result and the lines printed to
    [sys.stderr]. *)
Record run (exn : Type) := mkRun {
  outcome : exn + retval;
  stderr : list pystr;
}.
Arguments mkRun {exn} _ _.
Arguments outcome {exn} _.
Arguments stderr {exn} _.

Module Extract.
Import Validate.

(** The characters [str.rstrip()] removes: those for which [isspace] holds. *)
Definition whitespace : list N :=
  [9; 10; 11; 12; 13; 28; 29; 30; 31; 32; 133; 160; 5760; 8192; 8193; 8194;
   8195; 8196; 8197; 8198; 8199; 8200; 8201; 8202; 8232; 8233; 8239; 8287;
   12288]%N.

Fixpoint lstrip (chars : list N) (s : pystr) : pystr :=
  match s with
  | [] => []
  | c :: s' => if char_in c chars then lstrip chars s' else s
  end.

Definition rstrip (s : pystr) : pystr := rev (lstrip whitespace (rev s)).

(** The double quote, written by code point. *)
Definition dquote : pystr := [34%N].

Section WithLibrary.
Context {cls exn : Type} `{!Exceptions cls exn} `{!Library exn}.

(** The class [IOError] of [except IOError]. *)
Variable IOError : cls.

(** [filter_vid(line)] *)
Definition filter_vid (line : pystr) : exn + pyval :=
  let ret (vid : pystr) : exn + pyval :=
    inr (if check_valid_id vid then PyStr vid else PyNone) in
  match urlparse line with
  | inl e => inl e
  | inr p =>
      if negb (bool_decide (scheme p = [])) then
        let v := parse_qs (query p) in
        match v !! py "v" with
        | None => inr PyFalse
        | Some (first, _) => ret first
        end
      else ret line
  end.

(** The loop [for l in lines: v = filter_vid(l); if not v: continue;
    collection.append(v)], with [collection] as accumulator. *)
Fixpoint collect (lines : list pystr) (collection : list pyval)
  : exn + list pyval :=
  match lines with
  | [] => inr collection
  | l :: lines' =>
      match filter_vid l with
      | inl e => inl e
      | inr v =>
          if negb (truthy v) then collect lines' collection
          else collect lines' (collection ++ [v])
      end
  end.

(** [extract_vid_from_file(f)] *)
Definition extract_vid_from_file (f : pystr) : run exn :=
  let collection : list pyval := [] in
  match open_readlines f with
  | inl e =>
      if isinstance e IOError then
        mkRun (inr RetNone)
              [py "Could not open " ++ dquote ++ f ++ dquote ++ py "; skipping"]
      else mkRun (inl e) []
  | inr raw =>
      let lines := map rstrip raw in
      match collect lines collection with
      | inl e => mkRun (inl e) []
      | inr collection' => mkRun (inr (RetList collection')) []
      end
  end.

(** The candidate id of a line, in the words of the specification: with a
    URL scheme, the first value of the query parameter [v], if any; without
    one, the whole line. *)
Definition candidate (line : pystr) : option pystr :=
  match urlparse line with
  | inl _ => None
  | inr p =>
      if bool_decide (scheme p = []) then Some line
      else fst <$> parse_qs (query p) !! py "v"
  end.

Definition valid_candidate (line : pystr) : option pystr :=
  c ← candidate line; if check_valid_id c then Some c else None.

Definition parses (line : pystr) : Prop := ∃ p, urlparse line = inr p.

End WithLibrary.

End Extract.

(** ** [retriable_exceptions]  (lib.py, lines 107-133)

    The operation [fun] is any zero-argument callable: the loop observes
    the outcome of its first, second, ... call, given here as [fun_ k].
    [random k] is the k-th value of [random.random()], in [[0, 1)].  The
    loop leaves a trace of its calls of [fun], its [debug] lines and its
    [time.sleep]s. *)

Module Retry.

Inductive outcome (R exn : Type) :=
| Returns (v : R)
| Raises (e : exn).
Arguments Returns {R exn} _.
Arguments Raises {R exn} _.

(** The two lines the loop writes with [debug]:
    ["[Retryable errors] Retry limit reached"] and
    ["[Retryable error {current_retry}/{total_retries}] {error_type}
    ({error_msg}). Wait {wait_time} seconds"], the latter kept as its
    fields; [total_retries] is [max_retries or "-"], [None] standing for
    the dash. *)
Inductive debug_msg (exn : Type) :=
| RetryLimitReached
| RetryableError (current_retry : Z) (total_retries : option Z)
    (exc : exn) (seconds : Q).
Arguments RetryLimitReached {exn}.
Arguments RetryableError {exn} _ _ _ _.

Inductive event (exn : Type) :=
| Call (k : nat)
| Debug (m : debug_msg exn)
| Sleep (seconds : Q).
Arguments Call {exn} _.
Arguments Debug {exn} _.
Arguments Sleep {exn} _.

(** The local [retry], how often [fun] and [random.random] were called, and
    the trace so far. *)
Record state (exn : Type) := mkState {
  retry : Z;
  calls : nat;
  draws : nat;
  trace : list (event exn);
}.
Arguments mkState {exn} _ _ _ _.
Arguments retry {exn} _.
Arguments calls {exn} _.
Arguments draws {exn} _.
Arguments trace {exn} _.

(** One turn of [while 1]: the function returns or raises ([Done]), or the
    loop goes round again. *)
Inductive step (R exn : Type) :=
| Done (r : outcome R exn) (st : state exn)
| Again (st : state exn).
Arguments Done {R exn} _ _.
Arguments Again {R exn} _.

(** [random.uniform(a, b)] is [a + (b - a) * self.random()]. *)
Definition uniform (a b u : Q) : Q := (a + (b - a) * u)%Q.

(** [max_retries or "-"] *)
Definition or_dash (max_retries : option Z) : option Z :=
  match max_retries with
  | Some m => if m =? 0 then None else Some m
  | None => None
  end.

Section WithOperation.
Context {cls exn R : Type} `{!Exceptions cls exn}.
Variable fun_ : nat → outcome R exn.
Variable random : nat → Q.
Variable retriable : list cls.
Variable max_retries : option Z.

Definition init : state exn := mkState 0 0 0 [].

Definition iteration (st : state exn) : step R exn :=
  let called := trace st ++ [Call (calls st)] in
  match fun_ (calls st) with
  | Returns v =>
      Done (Returns v) (mkState (retry st) (S (calls st)) (draws st) called)
  | Raises exc =>
      if caught_by exc retriable then
        let retry' := retry st + 1 in
        if negb (bool_decide (type_of exc ∈ retriable)) then
          Done (Raises exc) (mkState retry' (S (calls st)) (draws st) called)
        else if match max_retries with
                | Some m => retry' >? m
                | None => false
                end then
          Done (Raises exc)
               (mkState retry' (S (calls st)) (draws st)
                        (called ++ [Debug RetryLimitReached]))
        else
          let seconds := uniform 0 (inject_Z (2 ^ retry')) (random (draws st)) in
          Again (mkState retry' (S (calls st)) (S (draws st))
                         (called ++
                          [Debug (RetryableError retry' (or_dash max_retries)
                                                 exc seconds);
                           Sleep seconds]))
      else
        Done (Raises exc) (mkState (retry st) (S (calls st)) (draws st) called)
  end.

(** The loop, run for at most [fuel] turns; [None] when it is still going. *)
Fixpoint loop (fuel : nat) (st : state exn)
  : option (outcome R exn * state exn) :=
  match fuel with
  | O => None
  | S fuel' =>
      match iteration st with
      | Done r st' => Some (r, st')
      | Again st' => loop fuel' st'
      end
  end.

(** [retriable_exceptions(fun, retriable_exceptions, max_retries)] *)
Definition retriable_exceptions (fuel : nat)
  : option (outcome R exn * state exn) :=
  loop fuel init.

(** The state after [n] turns that all went round again. *)
Fixpoint turns (n : nat) (st : state exn) : option (state exn) :=
  match n with
  | O => Some st
  | S n' =>
      match iteration st with
      | Done _ _ => None
      | Again st' => turns n' st'
      end
  end.

End WithOperation.

(** The sleeps of a trace, in order. *)
Fixpoint sleeps {exn : Type} (t : list (event exn)) : list Q :=
  match t with
  | [] => []
  | Sleep q :: t' => q :: sleeps t'
  | _ :: t' => sleeps t'
  end.


End Retry.

(** ** [default_sigint]  (lib.py, lines 22-29)

    The handler table of the process maps a signal number to its
    Python-level handler: [SIG_DFL], [SIG_IGN] or a callable.  The
    generator function is embedded as the generator object it creates,
    with [next], [throw] and [close]; [contextmanager] and the [with]
    statement drive it as [contextlib] does. *)

Module Sigint.

Inductive handler :=
| SIG_DFL
| SIG_IGN
| Callable (id : nat).

Definition sigtable := nat → handler.

Definition SIGINT : nat := 2%nat.

(** [signal.getsignal(sig)] and [signal.signal(sig, h)] *)
Definition getsignal (sig : nat) (t : sigtable) : handler := t sig.

Definition signal (sig : nat) (h : handler) (t : sigtable) : sigtable :=
  λ s, if bool_decide (s = sig) then h else t s.

(** The generator of [default_sigint]: not yet started, suspended at
    [yield] (inside [try], holding [original_sigint_handler]), or
    finished. *)
Inductive generator :=
| Created
| Suspended (original_sigint_handler : handler)
| Finished.

Inductive gen_result (exn : Type) :=
| Yielded
| StopIteration
| GenRaised (e : exn).
Arguments Yielded {exn}.
Arguments StopIteration {exn}.
Arguments GenRaised {exn} _.

Section Generator.
Context {exn : Type}.

(** [next(gen)] *)
Definition gen_next (g : generator) (t : sigtable)
  : gen_result exn * generator * sigtable :=
  match g with
  | Created =>
      let original_sigint_handler := getsignal SIGINT t in
      let t := signal SIGINT SIG_DFL t in
      (Yielded, Suspended original_sigint_handler, t)
  | Suspended original_sigint_handler =>
      (StopIteration, Finished, signal SIGINT original_sigint_handler t)
  | Finished => (StopIteration, Finished, t)
  end.

(** [gen.throw(e)]: the exception is raised at the [yield]; the [finally]
    clause runs and the exception goes on. *)
Definition gen_throw (e : exn) (g : generator) (t : sigtable)
  : gen_result exn * generator * sigtable :=
  match g with
  | Created => (GenRaised e, Finished, t)
  | Suspended original_sigint_handler =>
      (GenRaised e, Finished, signal SIGINT original_sigint_handler t)
  | Finished => (GenRaised e, Finished, t)
  end.

(** [gen.close()]: [GeneratorExit] is raised at the [yield]; the [finally]
    clause runs; [close] returns. *)
Definition gen_close (g : generator) (t : sigtable) : generator * sigtable :=
  match g with
  | Created => (Finished, t)
  | Suspended original_sigint_handler =>
      (Finished, signal SIGINT original_sigint_handler t)
  | Finished => (Finished, t)
  end.

(** How the block of a [with] statement ends: it completes, or an
    exception leaves it (an error, or a cancellation such as
    [KeyboardInterrupt]). *)
Inductive ending :=
| Completed
| Raised (e : exn).

(** How the [with] statement ends; [RuntimeError] is what
    [contextmanager] raises when the generator does not yield exactly
    once. *)
Inductive with_ending :=
| WithCompleted
| WithRaised (e : exn)
| WithRuntimeError.

(** [with default_sigint(): body] *)
Definition with_default_sigint (body : sigtable → ending * sigtable)
    (t : sigtable) : with_ending * sigtable :=
  match gen_next Created t with
  | (Yielded, g, t1) =>
      match body t1 with
      | (Completed, t2) =>
          match gen_next g t2 with
          | (StopIteration, _, t3) => (WithCompleted, t3)
          | (Yielded, _, t3) => (WithRuntimeError, t3)
          | (GenRaised e, _, t3) => (WithRaised e, t3)
          end
      | (Raised e, t2) =>
          match gen_throw e g t2 with
          | (GenRaised e', _, t3) => (WithRaised e', t3)
          | (StopIteration, _, t3) => (WithCompleted, t3)
          | (Yielded, _, t3) => (WithRuntimeError, t3)
          end
      end
  | (StopIteration, _, t1) => (WithRuntimeError, t1)
  | (GenRaised e, _, t1) => (WithRaised e, t1)
  end.

End Generator.

End Sigint.

(** ** The Python library, for the examples

    A class table with the built-in classes the examples use and
    [RequestError] of [yu_exceptions.py], and a transcription of
    [urllib.parse] (CPython 3.11): [urlsplit], [urlparse], [parse_qsl] and
    [parse_qs].  Three parts of [urllib.parse] rest on tables and codecs
    outside it and are left as fields of [codecs]: the validation of a
    bracketed host ([ipaddress]), the NFKC check of a non-ASCII host
    ([unicodedata]) and the decoding of percent escapes ([bytes.decode]). *)

Module Builtins.

Inductive pycls :=
| BaseException | Exception | KeyboardInterrupt
| OSError | FileNotFoundError | ConnectionError | ConnectionResetError
| ValueError | UnicodeError | UnicodeDecodeError
| RequestError.

#[export] Instance pycls_eq_dec : EqDecision pycls.
Proof. solve_decision. Defined.

Definition mro_tail (c : pycls) : list pycls :=
  match c with
  | BaseException => []
  | Exception | KeyboardInterrupt => [BaseException]
  | OSError | ValueError | RequestError => [Exception; BaseException]
  | FileNotFoundError | ConnectionError => [OSError; Exception; BaseException]
  | ConnectionResetError =>
      [ConnectionError; OSError; Exception; BaseException]
  | UnicodeError => [ValueError; Exception; BaseException]
  | UnicodeDecodeError =>
      [UnicodeError; ValueError; Exception; BaseException]
  end.

Record pyexn := mkExn {
  exc_class : pycls;
  exc_args : string;
}.

#[export] Instance builtin_exceptions : Exceptions pycls pyexn := {|
  proper_ancestors := mro_tail;
  type_of := exc_class;
|}.

(** In Python 3 [IOError] is another name of [OSError]. *)
Definition IOError : pycls := OSError.

End Builtins.

Module Urllib.
Import Builtins.

Record codecs := mkCodecs {
  check_bracketed_netloc : pystr → option pyexn;
  check_nfkc : pystr → option pyexn;
  unquote_escapes : pystr → pystr;
}.

Definition scheme_chars : pystr :=
  py "abcdefghijklmnopqrstuvwxyzABCDEFGHIJKLMNOPQRSTUVWXYZ0123456789+-.".

Definition uses_params : list pystr :=
  [py ""; py "ftp"; py "hdl"; py "prospero"; py "http"; py "imap";
   py "https"; py "shttp"; py "rtsp"; py "rtspu"; py "sip"; py "sips";
   py "mms"; py "sftp"; py "tel"].

(** [_WHATWG_C0_CONTROL_OR_SPACE] and [_UNSAFE_URL_BYTES_TO_REMOVE] *)
Definition whatwg_c0_control_or_space : list N := map N.of_nat (seq 0 33).
Definition unsafe_url_bytes_to_remove : list N := [9; 13; 10]%N.

(** [s.find(c)] and [s.find(c, start)] *)
Fixpoint find (c : N) (s : pystr) : option nat :=
  match s with
  | [] => None
  | x :: s' => if (x =? c)%N then Some O else S <$> find c s'
  end.

Definition find_from (c : N) (start : nat) (s : pystr) : option nat :=
  (λ i, (start + i)%nat) <$> find c (drop start s).

(** [s.rfind(c)] *)
Definition rfind (c : N) (s : pystr) : option nat :=
  (λ i, (length s - 1 - i)%nat) <$> find c (rev s).

(** [s.split(c, 1)] when [c in s]: the text before and after the first
    [c]. *)
Definition split_once (c : N) (s : pystr) : option (pystr * pystr) :=
  (λ i, (take i s, drop (S i) s)) <$> find c s.

(** [s.split(c)] *)
Fixpoint split_on (c : N) (s : pystr) (cur : pystr) : list pystr :=
  match s with
  | [] => [cur]
  | x :: s' =>
      if (x =? c)%N then cur :: split_on c s' [] else split_on c s' (cur ++ [x])
  end.

(** [c.isascii() and c.isalpha()] *)
Definition isascii_alpha (c : N) : bool :=
  ((65 <=? c) && (c <=? 90) || (97 <=? c) && (c <=? 122))%N.

(** [s.lower()] on the characters of a scheme, which are ASCII. *)
Definition lower (s : pystr) : pystr :=
  map (λ c, if ((65 <=? c) && (c <=? 90))%N then (c + 32)%N else c) s.

(** [s.replace(c, d)] for single characters *)
Definition replace_char (c d : N) (s : pystr) : pystr :=
  map (λ x, if (x =? c)%N then d else x) s.

Definition colon : N := 58.
Definition slash : N := 47.
Definition question : N := 63.
Definition hash : N := 35.
Definition semicolon : N := 59.
Definition lbracket : N := 91.
Definition rbracket : N := 93.
Definition ampersand : N := 38.
Definition equals : N := 61.
Definition plus : N := 43.
Definition space : N := 32.
Definition percent : N := 37.

(** [_splitnetloc(url, start)] *)
Definition splitnetloc (url : pystr) (start : nat) : pystr * pystr :=
  let delim :=
    foldl (λ delim c,
             match find_from c start url with
             | Some wdelim => Nat.min delim wdelim
             | None => delim
             end)
          (length url) [slash; question; hash] in
  (take (delim - start) (drop start url), drop delim url).

(** [_checknetloc(netloc)] *)
Definition checknetloc (cd : codecs) (netloc : pystr) : option pyexn :=
  if bool_decide (netloc = []) || forallb (λ c, (c <? 128)%N) netloc
  then None
  else check_nfkc cd netloc.

Record SplitResult := mkSplitResult {
  s_scheme : pystr;
  s_netloc : pystr;
  s_path : pystr;
  s_query : pystr;
  s_fragment : pystr;
}.

(** [urlsplit(url)] *)
Definition urlsplit (cd : codecs) (url : pystr) : pyexn + SplitResult :=
  let url := Extract.lstrip whatwg_c0_control_or_space url in
  let url := filter (λ c, c ∉ unsafe_url_bytes_to_remove) url in
  let '(scheme, url) :=
    match find colon url with
    | Some (S _ as i) =>
        if match url with c :: _ => isascii_alpha c | [] => false end
           && forallb (λ c, char_in c scheme_chars) (take i url)
        then (lower (take i url), drop (S i) url)
        else ([], url)
    | _ => ([], url)
    end in
  let after_netloc : pyexn + (pystr * pystr) :=
    if bool_decide (take 2 url = py "//") then
      let '(netloc, url) := splitnetloc url 2 in
      let has_l := char_in lbracket netloc in
      let has_r := char_in rbracket netloc in
      if has_l && negb has_r || has_r && negb has_l then
        inl (mkExn ValueError "Invalid IPv6 URL")
      else if has_l && has_r then
        match check_bracketed_netloc cd netloc with
        | Some e => inl e
        | None => inr (netloc, url)
        end
      else inr (netloc, url)
    else inr ([], url) in
  match after_netloc with
  | inl e => inl e
  | inr (netloc, url) =>
      let '(url, fragment) :=
        match split_once hash url with
        | Some (u, f) => (u, f)
        | None => (url, [])
        end in
      let '(url, query) :=
        match split_once question url with
        | Some (u, q) => (u, q)
        | None => (url, [])
        end in
      match checknetloc cd netloc with
      | Some e => inl e
      | None => inr (mkSplitResult scheme netloc url query fragment)
      end
  end.

(** [_splitparams(url)], called when [';' in url] *)
Definition splitparams (url : pystr) : pystr * pystr :=
  let cut (i : nat) := (take i url, drop (S i) url) in
  match rfind slash url with
  | Some j =>
      match find_from semicolon j url with
      | Some i => cut i
      | None => (url, [])
      end
  | None =>
      match find semicolon url with
      | Some i => cut i
      | None => (url, [])
      end
  end.

(** [urlparse(url)] *)
Definition urlparse (cd : codecs) (url : pystr) : pyexn + ParseResult :=
  match urlsplit cd url with
  | inl e => inl e
  | inr r =>
      let '(url, params) :=
        if bool_decide (s_scheme r ∈ uses_params)
           && char_in semicolon (s_path r)
        then splitparams (s_path r)
        else (s_path r, []) in
      inr (mkParseResult (s_scheme r) (s_netloc r) url params
                         (s_query r) (s_fragment r))
  end.

(** [unquote(string)] *)
Definition unquote (cd : codecs) (string : pystr) : pystr :=
  if negb (char_in percent string) then string else unquote_escapes cd string.

(** [parse_qsl(qs)] with its default arguments *)
Definition parse_qsl (cd : codecs) (qs : pystr) : list (pystr * pystr) :=
  let query_args :=
    if bool_decide (qs = []) then [] else split_on ampersand qs [] in
  foldl (λ r name_value,
           if bool_decide (name_value = []) then r
           else match split_once equals name_value with
                | None => r
                | Some (n, v) =>
                    if bool_decide (v = []) then r
                    else
                      let name := unquote cd (replace_char plus space n) in
                      let value := unquote cd (replace_char plus space v) in
                      r ++ [(name, value)]
                end)
        [] query_args.

(** [parse_qs(qs)] *)
Definition parse_qs (cd : codecs) (qs : pystr)
  : gmap (list N) (list N * list (list N)) :=
  foldl (λ parsed_result '(name, value),
           match parsed_result !! name with
           | Some (first, rest) =>
               <[name := (first, rest ++ [value])]> parsed_result
           | None => <[name := (value, [])]> parsed_result
           end)
        ∅ (parse_qsl cd qs).

End Urllib.

(** The library of the examples: [urllib.parse] as above, with codecs the
    examples do not reach, and a file system with three files. *)

Module Examples.
Import Builtins.

Definition plain_codecs : Urllib.codecs :=
  Urllib.mkCodecs (λ _, None) (λ _, None) (λ s, s).

Definition newline : pystr := [10%N].

(** The lines of the scenario of the specification. *)
Definition watch_lines : list pystr :=
  [py "https://example.com/watch?v=abcDEF12345";
   py "not a url and too long to be an id";
   py "dQw4w9WgXcQ"].

Definition files (f : pystr) : pyexn + list pystr :=
  if bool_decide (f = py "ids.txt") then
    inr (map (λ l, l ++ newline) watch_lines)
  else if bool_decide (f = py "broken.txt") then
    inr [py "dQw4w9WgXcQ" ++ newline; py "http://[" ++ newline]
  else if bool_decide (f = py "binary.dat") then
    inl (mkExn UnicodeDecodeError "invalid start byte")
  else
    inl (mkExn FileNotFoundError "No such file or directory").

(** Operations for [retriable_exceptions]: one that fails twice, by a
    connection error and by a request error, and then returns 42; one that
    always fails; one whose second failure is of a subclass of a retriable
    class.  And a [random.random] that always gives one half. *)
Definition fails_twice (k : nat) : Retry.outcome Z pyexn :=
  match k with
  | 0%nat => Retry.Raises (mkExn ConnectionError "connection lost")
  | 1%nat => Retry.Raises (mkExn RequestError "quota exceeded")
  | _ => Retry.Returns 42
  end.

Definition always_fails (k : nat) : Retry.outcome Z pyexn :=
  Retry.Raises (mkExn RequestError "quota exceeded").

Definition fails_by_subclass (k : nat) : Retry.outcome Z pyexn :=
  match k with
  | 0%nat => Retry.Raises (mkExn ConnectionError "connection lost")
  | _ => Retry.Raises (mkExn ConnectionResetError "reset by peer")
  end.

Definition one_half (k : nat) : Q := (1 # 2)%Q.

(** A handler table with a Python handler for SIGINT, and a block that
    installs another one and is then interrupted. *)
Definition table (s : nat) : Sigint.handler :=
  if bool_decide (s = Sigint.SIGINT) then Sigint.Callable 7 else Sigint.SIG_DFL.

Definition interrupted_block (t : Sigint.sigtable)
  : Sigint.ending (exn := pyexn) * Sigint.sigtable :=
  (Sigint.Raised (mkExn KeyboardInterrupt ""),
   Sigint.signal Sigint.SIGINT Sigint.SIG_IGN t).

#[export] Instance library : Library pyexn := {|
  urlparse := Urllib.urlparse plain_codecs;
  parse_qs := Urllib.parse_qs plain_codecs;
  open_readlines := files;
|}.

End Examples.

(** * More of the code

    The rest of [lib.py] that can be embedded, and the functions of
    [main.py] that use it.  The code is Python 3 ([print(..., file=...)] in
    [lib.py]), where [lib.to_utf8] returns a [str] or [None] as it is.
    A call of [lib.debug] is recorded with the text handed to it, as in the
    trace of [retriable_exceptions], and is taken to return: it does for
    every text when the stream is open and its encoding is UTF-8. *)

Module Str.

Definition comma : N := 44.
Definition equals : N := 61.

(** [s.split(c)] *)
Definition split (c : N) (s : pystr) : list pystr := Urllib.split_on c s [].

(** [s.strip()] *)
Definition strip (s : pystr) : pystr :=
  Extract.lstrip Extract.whitespace (Extract.rstrip s).

(** [str(n)] for an integer: its decimal digits, after a minus sign when
    it is negative. *)
Fixpoint uint_chars (d : Decimal.uint) : pystr :=
  match d with
  | Decimal.Nil => []
  | Decimal.D0 d' => 48%N :: uint_chars d'
  | Decimal.D1 d' => 49%N :: uint_chars d'
  | Decimal.D2 d' => 50%N :: uint_chars d'
  | Decimal.D3 d' => 51%N :: uint_chars d'
  | Decimal.D4 d' => 52%N :: uint_chars d'
  | Decimal.D5 d' => 53%N :: uint_chars d'
  | Decimal.D6 d' => 54%N :: uint_chars d'
  | Decimal.D7 d' => 55%N :: uint_chars d'
  | Decimal.D8 d' => 56%N :: uint_chars d'
  | Decimal.D9 d' => 57%N :: uint_chars d'
  end.

Definition str_of_int (z : Z) : pystr :=
  match Z.to_int z with
  | Decimal.Pos d => uint_chars d
  | Decimal.Neg d => 45%N :: uint_chars d
  end.

(** [s.count(c)] *)
Definition count (c : N) (s : pystr) : nat :=
  length (filter (λ x, x = c) s).

End Str.

(** ** [catch_exceptions]  (lib.py, lines 55-65)

    [exit_codes] is a dict from exception classes to exit codes, kept as
    the list of its items in insertion order (the keys are distinct).
    [fun_] is the outcome of the call of [fun] on its arguments.  The function
    returns an exit code, or an exception leaves it: the one of [fun] when
    [except] does not catch it, or the [KeyError] of
    [exit_codes[exc.__class__]]. *)

Class ExceptionText (cls exn : Type) := {
  (** [cls.__name__] and [str(exc)] *)
  class_name : cls → pystr;
  exn_str : exn → pystr;
}.

Module Catch.

Inductive result (cls exn : Type) :=
| Exit (code : Z)
| Propagated (e : exn)
| KeyError (key : cls).
Arguments Exit {cls exn} _.
Arguments Propagated {cls exn} _.
Arguments KeyError {cls exn} _.

Section WithClasses.
Context {cls exn R : Type} `{!Exceptions cls exn} `{!ExceptionText cls exn}.

(** [d[k]], [None] standing for [KeyError] *)
Fixpoint dict_get (d : list (cls * Z)) (k : cls) : option Z :=
  match d with
  | [] => None
  | (k', v) :: d' => if bool_decide (k' = k) then Some v else dict_get d' k
  end.

(** [d.keys()] *)
Definition keys (d : list (cls * Z)) : list cls := map fst d.

(** The result and the lines handed to [debug]. *)
Definition catch_exceptions (exit_codes : list (cls * Z))
    (fun_ : Retry.outcome R exn) : result cls exn * list pystr :=
  match fun_ with
  | Retry.Returns _ => (Exit 0, [])
  | Retry.Raises exc =>
      if caught_by exc (keys exit_codes) then
        let line :=
          py "[" ++ class_name (type_of exc) ++ py "] " ++ exn_str exc in
        match dict_get exit_codes (type_of exc) with
        | Some code => (Exit code, [line])
        | None => (KeyError (type_of exc), [line])
        end
      else (Propagated exc, [])
  end.

End WithClasses.

End Catch.

(** ** [string_to_dict]  (lib.py, lines 78-82) *)

Module StringToDict.
Import Str.

(** [None], a dict, or the [ValueError] of [dict()]: "dictionary update
    sequence element #[i] has length [n]; 2 is required". *)
Inductive result :=
| RNone
| RDict (d : gmap (list N) (list N))
| RValueError (i n : nat).

(** [dict(items)]: the items are taken in order, a later key replaces an
    earlier one; [i] is the position of the first item. *)
Fixpoint dict_of (items : list (list pystr)) (i : nat)
    (d : gmap (list N) (list N)) : nat * nat + gmap (list N) (list N) :=
  match items with
  | [] => inr d
  | [k; v] :: items' => dict_of items' (S i) (<[k := v]> d)
  | item :: _ => inl (i, length item)
  end.

Definition string_to_dict (string : option pystr) : result :=
  match string with
  | None => RNone
  | Some s =>
      if bool_decide (s = []) then RNone
      else
        let pairs := map strip (split comma s) in
        match dict_of (map (split equals) pairs) 0 ∅ with
        | inr d => RDict d
        | inl (i, n) => RValueError i n
        end
  end.

(** The text ["key1=value1, key2=value2"] for a list of pairs, and the
    dict with these pairs. *)
Definition render_pair (kv : pystr * pystr) : pystr :=
  fst kv ++ [equals] ++ snd kv.

Definition render (ps : list (pystr * pystr)) : pystr :=
  Re.join (py ", ") (map render_pair ps).

Definition dict_of_pairs (ps : list (pystr * pystr))
  : gmap (list N) (list N) :=
  foldl (λ d kv, <[fst kv := snd kv]> d) ∅ ps.

(** A key and a value that the text gives back as they are: without comma
    or equals sign, the key not starting and the value not ending with
    white space. *)
Definition plain (kv : pystr * pystr) : Prop :=
  (comma ∉ fst kv) ∧ (comma ∉ snd kv)
  ∧ (equals ∉ fst kv) ∧ (equals ∉ snd kv)
  ∧ (∀ c k, fst kv = c :: k → c ∉ Extract.whitespace)
  ∧ (∀ c v, snd kv = v ++ [c] → c ∉ Extract.whitespace).

End StringToDict.

(** ** [get_first_existing_filename] and [get_standard_filename]
    (lib.py, lines 85-105)

    [os.path] is [posixpath]; [exists_] is [os.path.exists] at the time of
    the call. *)

Module Paths.

Definition sep : N := 47.

(** [b.startswith('/')] and [a.endswith('/')] *)
Definition startswith_sep (b : pystr) : bool :=
  match b with
  | c :: _ => (c =? sep)%N
  | [] => false
  end.

Definition endswith_sep (a : pystr) : bool := startswith_sep (rev a).

(** [os.path.join(a, b)] *)
Definition join (a b : pystr) : pystr :=
  if startswith_sep b then b
  else if bool_decide (a = []) || endswith_sep a then a ++ b
  else a ++ [sep] ++ b.

(** [os.getcwd()], [os.path.expanduser("~")] and [sys.prefix] *)
Record environ := mkEnviron {
  getcwd : pystr;
  home : pystr;
  prefix : pystr;
}.

Definition client_secrets_json : pystr :=
  py "share/youtube_upload/client_secrets.json".

Section WithFiles.
Variable exists_ : pystr → bool.

Fixpoint get_first_existing_filename (prefixes : list pystr)
    (relative_path : pystr) : option pystr :=
  match prefixes with
  | [] => None
  | prefix :: prefixes' =>
      let path := join prefix relative_path in
      if exists_ path then Some path
      else get_first_existing_filename prefixes' relative_path
  end.

(** The loop [for x in filenames: if not os.path.exists(x): continue;
    return x] *)
Fixpoint first_existing (filenames : list pystr) : option pystr :=
  match filenames with
  | [] => None
  | x :: filenames' =>
      if negb (exists_ x) then first_existing filenames' else Some x
  end.

Definition get_standard_filename (env : environ) (fname : pystr)
  : option pystr :=
  let filenames := [join (getcwd env) fname; join (home env) fname] in
  match first_existing filenames with
  | Some x => Some x
  | None =>
      get_first_existing_filename
        [prefix env; join (prefix env) (py "local")] client_secrets_json
  end.

End WithFiles.

End Paths.

(** ** The loop of [retriable_exceptions], between turns *)

Module RetryInv.
Import Retry.

(** Before each turn the local [retry], the number of calls, of draws and
    of sleeps are the same. *)
Definition steady {exn : Type} (st : state exn) : Prop :=
  retry st = Z.of_nat (calls st)
  ∧ draws st = calls st
  ∧ length (sleeps (trace st)) = calls st.

(** The wait after the failure of call [i] (counted from 0). *)
Definition wait (random : nat → Q) (i : nat) : Q :=
  uniform 0 (inject_Z (2 ^ Z.of_nat (S i))) (random i).

(** The sum of a list of durations. *)
Definition total (l : list Q) : Q := foldr Qplus 0%Q l.

(** What a retry line may show when the budget is [m]: an attempt number
    from 1 to [m], and [m] itself as the budget. *)
Definition retry_line_ok {exn : Type} (m : Z) (ev : event exn) : Prop :=
  match ev with
  | Debug (RetryableError current total _ _) =>
      1 <= current <= m ∧ total = Some m
  | _ => True
  end.

End RetryInv.

(** ** [main.py]

    The classes of [yu_exceptions.py] and those [main.py] names, with any
    other class as [Other n], a direct subclass of [Exception].  An
    exception is its class and its text.  The collaborators of [main.py]
    that are not part of it ([upload_video], [auth], [playlists],
    [categories], [webbrowser], the [youtube] resource, [str.format] on
    the title template) are the fields of [world]; what a run does to them
    and writes is the list of its [event]s. *)

Module Main.
Import Str.

Inductive ycls :=
| BaseException | Exception | KeyboardInterrupt
| OptionsError | InvalidCategory | RequestError | AuthenticationError
| FlowExchangeError | RuntimeError | NotImplementedError
| ValueError | HttpError
| Other (n : nat).

#[export] Instance ycls_eq_dec : EqDecision ycls.
Proof. solve_decision. Defined.

Definition mro_tail (c : ycls) : list ycls :=
  match c with
  | BaseException => []
  | Exception | KeyboardInterrupt => [BaseException]
  | NotImplementedError => [RuntimeError; Exception; BaseException]
  | _ => [Exception; BaseException]
  end.

Definition ycls_name (c : ycls) : pystr :=
  match c with
  | BaseException => py "BaseException"
  | Exception => py "Exception"
  | KeyboardInterrupt => py "KeyboardInterrupt"
  | OptionsError => py "OptionsError"
  | InvalidCategory => py "InvalidCategory"
  | RequestError => py "RequestError"
  | AuthenticationError => py "AuthenticationError"
  | FlowExchangeError => py "FlowExchangeError"
  | RuntimeError => py "RuntimeError"
  | NotImplementedError => py "NotImplementedError"
  | ValueError => py "ValueError"
  | HttpError => py "HttpError"
  | Other n => py "Other" ++ str_of_int (Z.of_nat n)
  end.

Record yexn := mkYexn {
  ecls : ycls;
  etext : pystr;
}.

#[export] Instance main_exceptions : Exceptions ycls yexn := {|
  proper_ancestors := mro_tail;
  type_of := ecls;
|}.

#[export] Instance main_text : ExceptionText ycls yexn := {|
  class_name := ycls_name;
  exn_str := etext;
|}.

(** [EXIT_CODES] *)
Definition EXIT_CODES : list (ycls * Z) :=
  [(OptionsError, 2); (InvalidCategory, 3); (RequestError, 3);
   (AuthenticationError, 4); (FlowExchangeError, 4);
   (NotImplementedError, 5)].

(** [WATCH_VIDEO_URL.format(id=video_id)] *)
Definition WATCH_VIDEO_URL : pystr := py "https://www.youtube.com/watch?v=".

Definition watch_video_url (video_id : pystr) : pystr :=
  WATCH_VIDEO_URL ++ video_id.

(** The options that [argparse] hands over. *)
Record options := mkOptions {
  title : option pystr;
  category : option pystr;
  description : option pystr;
  tags : option pystr;
  privacy : option pystr;
  publish_at : option pystr;
  location : option pystr;
  thumb : option pystr;
  playlist : option pystr;
  title_template : pystr;
  client_secrets : option pystr;
  credentials_file : option pystr;
  auth_browser : bool;
  open_link : bool;
}.

(** ["{0}".format(x)] for a string or [None] *)
Definition format_opt (o : option pystr) : pystr :=
  match o with
  | Some s => s
  | None => py "None"
  end.

(** The truth value of an optional string, and [a or b]. *)
Definition given (o : option pystr) : bool :=
  match o with
  | Some (_ :: _) => true
  | _ => false
  end.

Definition or_else (a b : option pystr) : option pystr :=
  if given a then a else b.

(** The [request_body] of [upload_youtube_video]. *)
Record request_body := mkBody {
  b_title : option pystr;
  b_description : option pystr;
  b_categoryId : option pystr;
  b_tags : list pystr;
  b_privacyStatus : option pystr;
  b_publishAt : option pystr;
  b_location : StringToDict.result;
}.

Inductive event :=
| Debug (line : pystr)
| PrintUsage
| GetResource (client_secrets credentials : option pystr) (browser : bool)
| Upload (video_path : pystr) (body : request_body) (result : yexn + pystr)
| ProgressFinish
| OpenLink (url : pystr)
| SetThumbnail (video_id thumb : pystr)
| AddToPlaylist (video_id playlist : pystr) (privacy : option pystr)
| Output (text : pystr).

Record world := mkWorld {
  (** [categories.IDS] *)
  IDS : pystr → option Z;
  (** [title_template.format(title=..., n=..., total=...)] *)
  format_title : pystr → option pystr → Z → Z → yexn + pystr;
  (** [upload_video.upload], for the video with the given index *)
  upload : nat → pystr → request_body → yexn + pystr;
  (** the text of ["{0}".format(error.content.strip())] *)
  content_text : yexn → pystr;
  (** [auth.get_resource]: a resource, or a false value *)
  get_resource : option pystr → option pystr → bool → yexn + bool;
  (** [webbrowser.open], [youtube.thumbnails().set(...).execute()] and
      [playlists.add_video_to_playlist]: [None] when they return *)
  open_url : pystr → option yexn;
  set_thumbnail : pystr → pystr → option yexn;
  add_video_to_playlist : pystr → pystr → option pystr → option yexn;
  (** [os.path.exists], and the directories *)
  exists_ : pystr → bool;
  env : Paths.environ;
}.

(** A computation: its result or the exception that leaves it, and the
    events, in order. *)
Definition M (A : Type) : Type := (yexn + A) * list event.

Definition ret {A : Type} (a : A) : M A := (inr a, []).
Definition raise {A : Type} (e : yexn) : M A := (inl e, []).
Definition emit (ev : event) : M unit := (inr tt, [ev]).

Definition bind {A B : Type} (m : M A) (k : A → M B) : M B :=
  match m with
  | (inl e, t) => (inl e, t)
  | (inr a, t) => let '(r, t') := k a in (r, t ++ t')
  end.

(** [when c: m] *)
Definition when (c : bool) (m : M unit) : M unit := if c then m else ret tt.

(** A call of a collaborator that returns nothing. *)
Definition call (ev : event) (r : option yexn) : M unit :=
  match r with
  | None => emit ev
  | Some e => (inl e, [ev])
  end.

Notation "'let!' x ':=' m 'in' k" := (bind m (λ x, k))
  (at level 10, x name, m at level 100, k at level 200).
Notation "'do!' m 'in' k" := (bind m (λ _, k))
  (at level 10, m at level 100, k at level 200).

Section WithWorld.
Variable w : world.

(** [get_category_id(category)] *)
Definition get_category_id (category : option pystr) : M (option pystr) :=
  match category with
  | Some ((_ :: _) as c) =>
      match IDS w c with
      | Some ncategory =>
          do! emit (Debug (py "Using category: " ++ c ++ py " (id="
                           ++ str_of_int ncategory ++ py ")")) in
          ret (Some (str_of_int ncategory))
      | None => raise (mkYexn InvalidCategory (c ++ py " is not a valid category"))
      end
  | _ => ret None
  end.

(** [parse_options_error(parser, options)], with
    [required_options = ["title"]] *)
Definition parse_options_error (o : options) : M unit :=
  let missing := if negb (given (title o)) then [py "title"] else [] in
  match missing with
  | [] => ret tt
  | _ :: _ =>
      do! emit PrintUsage in
      raise (mkYexn OptionsError
               (py "Some required option are missing: "
                ++ Re.join (py ", ") missing))
  end.

(** The [ValueError] of [dict()] in [lib.string_to_dict] *)
Definition location_dict (o : options) : M StringToDict.result :=
  match StringToDict.string_to_dict (location o) with
  | StringToDict.RValueError i n =>
      raise (mkYexn ValueError
               (py "dictionary update sequence element #" ++ str_of_int (Z.of_nat i)
                ++ py " has length " ++ str_of_int (Z.of_nat n)
                ++ py "; 2 is required"))
  | r => ret r
  end.

(** [upload_youtube_video(youtube, options, video_path, total_videos,
    index)] *)
Definition upload_youtube_video (o : options) (video_path : pystr)
    (total_videos index : nat) : M pystr :=
  do! when (given (publish_at o))
        (emit (Debug
                 (py "Your video will remain private until specified date.")))
  in
  let tags :=
    map strip (split comma (match tags o with
                            | Some ((_ :: _) as t) => t
                            | _ => []
                            end)) in
  let! complete_title :=
    (if (1 <? total_videos)%nat then
       match format_title w (title_template o) (title o)
               (Z.of_nat index + 1) (Z.of_nat total_videos) with
       | inl e => raise e
       | inr t => ret (Some t)
       end
     else ret (title o)) in
  let! category_id := get_category_id (category o) in
  let! location := location_dict o in
  let request_body :=
    mkBody complete_title (description o) category_id tags
      (if given (publish_at o) then Some (py "private") else privacy o)
      (publish_at o) location in
  do! emit (Debug (py "Start upload: " ++ video_path)) in
  let result := upload w index video_path request_body in
  do! emit (Upload video_path request_body result) in
  match result with
  | inr video_id => do! emit ProgressFinish in ret video_id
  | inl error =>
      do! emit ProgressFinish in
      if isinstance error HttpError then
        raise (mkYexn RequestError
                 (py "Server response: " ++ content_text w error))
      else raise error
  end.

(** [get_youtube_handler(options)] *)
Definition get_youtube_handler (o : options) : M bool :=
  let home := Paths.home (env w) in
  let default_client_secrets :=
    Paths.get_first_existing_filename (exists_ w)
      [Paths.prefix (env w); Paths.join (Paths.prefix (env w)) (py "local")]
      Paths.client_secrets_json in
  let default_credentials :=
    Paths.join home (py ".youtube-upload-credentials.json") in
  let client_secrets :=
    or_else (client_secrets o)
      (or_else default_client_secrets
         (Some (Paths.join home (py ".client_secrets.json")))) in
  let credentials := or_else (credentials_file o) (Some default_credentials) in
  do! emit (Debug (py "Using client secrets: "
                   ++ format_opt client_secrets)) in
  do! emit (Debug (py "Using credentials file: " ++ format_opt credentials)) in
  do! emit (GetResource client_secrets credentials (auth_browser o)) in
  match get_resource w client_secrets credentials (auth_browser o) with
  | inl e => raise e
  | inr youtube => ret youtube
  end.

(** The body of the loop of [run_main], for one video. *)
Definition run_video (o : options) (total_videos index : nat)
    (video_path : pystr) : M unit :=
  let! video_id := upload_youtube_video o video_path total_videos index in
  let video_url := watch_video_url video_id in
  do! emit (Debug (py "Video URL: " ++ video_url)) in
  do! when (open_link o) (call (OpenLink video_url) (open_url w video_url)) in
  do! match thumb o with
      | Some ((_ :: _) as t) =>
          call (SetThumbnail video_id t) (set_thumbnail w video_id t)
      | _ => ret tt
      end in
  do! match playlist o with
      | Some ((_ :: _) as p) =>
          call (AddToPlaylist video_id p (privacy o))
               (add_video_to_playlist w video_id p (privacy o))
      | _ => ret tt
      end in
  emit (Output (video_id ++ [10%N])).

(** [for index, video_path in enumerate(args)], from [index] on *)
Fixpoint run_videos (o : options) (total_videos index : nat)
    (args : list pystr) : M unit :=
  match args with
  | [] => ret tt
  | video_path :: args' =>
      do! run_video o total_videos index video_path in
      run_videos o total_videos (S index) args'
  end.

(** [run_main(parser, options, args, output)] *)
Definition run_main (o : options) (args : list pystr) : M unit :=
  do! parse_options_error o in
  let! youtube := get_youtube_handler o in
  if (youtube : bool) then run_videos o (length args) 0 args
  else raise (mkYexn AuthenticationError (py "Cannot get youtube resource")).

(** [run()], from the call of [run_main] in [main] on, that is once
    [argparse] has accepted the command line:
    [sys.exit(lib.catch_exceptions(EXIT_CODES, main, ...))], with the
    events of [run_main] and the lines [catch_exceptions] hands to
    [debug].  ([main] itself calls [run_main] with the one video file
    that [argparse] requires.) *)
Definition run (o : options) (args : list pystr)
  : Catch.result ycls yexn * list event :=
  let '(r, t) := run_main o args in
  let '(status, lines) :=
    Catch.catch_exceptions EXIT_CODES
      (match r with
       | inl e => Retry.Raises e
       | inr v => Retry.Returns v
       end) in
  (status, t ++ map Debug lines).

End WithWorld.

(** The ids written to [output], and the ids [upload] returned. *)
Fixpoint written (t : list event) : list pystr :=
  match t with
  | [] => []
  | Output text :: t' => text :: written t'
  | _ :: t' => written t'
  end.

Fixpoint uploaded (t : list event) : list pystr :=
  match t with
  | [] => []
  | Upload _ _ (inr video_id) :: t' => video_id :: uploaded t'
  | _ :: t' => uploaded t'
  end.

(** The request bodies handed to [upload], and how often
    [progress.finish()] was called. *)
Fixpoint bodies (t : list event) : list request_body :=
  match t with
  | [] => []
  | Upload _ body _ :: t' => body :: bodies t'
  | _ :: t' => bodies t'
  end.

(** What every request body of a run with these options and this many
    videos shows: the video is private when a publication date is set and
    has the privacy of the options otherwise; date and description are
    those of the options; a single video has the title of the options; the
    list of tags is not empty. *)
Definition body_ok (o : options) (total_videos : nat) (b : request_body)
  : Prop :=
  b_privacyStatus b
  = (if given (publish_at o) then Some (py "private") else privacy o)
  ∧ b_publishAt b = publish_at o
  ∧ b_description b = description o
  ∧ ((total_videos ≤ 1)%nat → b_title b = title o)
  ∧ b_tags b ≠ [].

(** The line [output.write] writes for a video. *)
Definition output_line (video_id : pystr) : pystr := video_id ++ [10%N].

Fixpoint finishes (t : list event) : nat :=
  match t with
  | [] => O
  | ProgressFinish :: t' => S (finishes t')
  | _ :: t' => finishes t'
  end.


(** Case analysis on every branch and every answer of a collaborator. *)
Ltac branches :=
  unfold when, call;
  repeat first
    [ progress cbn [bind ret raise emit when call fst snd app
                    written uploaded bodies finishes length
                    b_title b_description b_categoryId b_tags
                    b_privacyStatus b_publishAt b_location]
    | match goal with
      | |- context [match ?x with _ => _ end] =>
          lazymatch x with
          | context [match _ with _ => _ end] => fail
          | _ => destruct x eqn:?
          end
      end ].

End Main.

(** [urllib.parse] as transcribed, with any codecs and any file system,
    as the library of [filter_vid]. *)

Module UrllibLibrary.

Definition library (cd : Urllib.codecs)
    (files : pystr → Builtins.pyexn + list pystr) : Library Builtins.pyexn := {|
  urlparse := Urllib.urlparse cd;
  parse_qs := Urllib.parse_qs cd;
  open_readlines := files;
|}.

End UrllibLibrary.

(** Files, options and collaborators for the examples. *)

Module MoreExamples.
Import Main.

Definition environ : Paths.environ :=
  Paths.mkEnviron (py "/home/ann/videos") (py "/home/ann") (py "/usr").

(** Only the client secrets under [/usr/local] exist. *)
Definition only_local (path : pystr) : bool :=
  bool_decide
    (path = py "/usr/local/share/youtube_upload/client_secrets.json").

Definition plain_options : options :=
  mkOptions (Some (py "Concert")) None None None (Some (py "public")) None
    None None None (py "{title} [{n}/{total}]") None None false false.

(** A world in which every collaborator does its work: the video with
    index [i] gets the id ["video"] followed by [i]. *)
Definition good_world : world :=
  mkWorld (λ _, None) (λ _ t _ _, inr (format_opt t))
    (λ i _ _, inr (py "video" ++ Str.str_of_int (Z.of_nat i)))
    (λ e, etext e) (λ _ _ _, inr true) (λ _, None) (λ _ _, None)
    (λ _ _ _, None) only_local environ.

(** The same, but the upload of the second video fails. *)
Definition second_fails : world :=
  mkWorld (λ _, None) (λ _ t _ _, inr (format_opt t))
    (λ i _ _, match i with
              | 1%nat => inl (mkYexn HttpError (py "quota"))
              | _ => inr (py "video" ++ Str.str_of_int (Z.of_nat i))
              end)
    (λ e, etext e) (λ _ _ _, inr true) (λ _, None) (λ _ _, None)
    (λ _ _ _, None) only_local environ.

(** A world with the category [Music] (id 10), in which the playlist
    cannot be changed. *)
Definition music_world : world :=
  mkWorld (λ c, if bool_decide (c = py "Music") then Some 10 else None)
    (λ _ t _ _, inr (format_opt t))
    (λ i _ _, inr (py "video" ++ Str.str_of_int (Z.of_nat i)))
    (λ e, etext e) (λ _ _ _, inr true) (λ _, None) (λ _ _, None)
    (λ _ _ _, Some (mkYexn HttpError (py "forbidden"))) only_local environ.


Definition music_options : options :=
  mkOptions (Some (py "Concert")) (Some (py "Music")) (Some (py "Live"))
    (Some (py "mutter, beethoven")) (Some (py "public"))
    (Some (py "2030-01-01T00:00:00.0Z")) (Some (py "latitude=41.4,longitude=2.2"))
    (Some (py "thumb.png")) (Some (py "Concerts"))
    (py "{title} [{n}/{total}]") (Some (py "secrets.json")) None true true.

End MoreExamples.

(** * Properties *)

Module ValidateFacts.
Import Validate.

Lemma in_alphabetb_spec c : in_alphabetb c = true ↔ in_alphabet c.
Proof.
  unfold in_alphabetb, in_alphabet.
  rewrite !orb_true_iff, !andb_true_iff, !N.leb_le, !N.eqb_eq. tauto.
Qed.

(** Below 128 the membership test of the source and the ranges of the
    specification agree, by enumeration. *)
Lemma vid_alphabet_table :
  forallb (λ n : nat,
             Bool.eqb (char_in (N.of_nat n) vid_alphabet)
                      (in_alphabetb (N.of_nat n)))
          (seq 0 128) = true.
Proof. vm_compute. reflexivity. Qed.

Lemma vid_alphabet_bound c : c ∈ vid_alphabet → (c < 128)%N.
Proof.
  revert c. apply Forall_forall.
  apply (bool_decide_unpack _). vm_compute. reflexivity.
Qed.

Lemma elem_of_vid_chars c : c ∈ vid_chars ↔ in_alphabet c.
Proof.
  unfold vid_chars. rewrite elem_of_list_to_set, <- in_alphabetb_spec.
  destruct (decide (c < 128)%N) as [Hlt|Hge].
  - pose proof vid_alphabet_table as T.
    rewrite forallb_forall in T.
    specialize (T (N.to_nat c)).
    rewrite N2Nat.id in T.
    assert (Hin : In (N.to_nat c) (seq 0 128)) by (apply in_seq; lia).
    apply T, Bool.eqb_prop in Hin.
    rewrite <- Hin. unfold char_in. symmetry. apply bool_decide_eq_true.
  - split.
    + intros H%vid_alphabet_bound. lia.
    + unfold in_alphabetb.
      rewrite !orb_true_iff, !andb_true_iff, !N.leb_le, !N.eqb_eq. lia.
Qed.

Lemma subset_vid_chars (vid : pystr) :
  (list_to_set vid : gset N) ∩ vid_chars = list_to_set vid
  ↔ Forall in_alphabet vid.
Proof.
  rewrite Forall_forall. split.
  - intros Heq c Hc. apply elem_of_vid_chars.
    assert (c ∈ (list_to_set vid : gset N)) as Hs
      by (apply elem_of_list_to_set; exact Hc).
    rewrite <- Heq in Hs. apply elem_of_intersection in Hs. tauto.
  - intros Hall. apply set_eq. intros c.
    rewrite elem_of_intersection, elem_of_list_to_set.
    split; [tauto|]. intros Hc. split; [done|].
    apply elem_of_vid_chars. auto.
Qed.

(** C1. For every string [s], [check_valid_id s] is true if and only if
    [len(s) == 11] and every character of [s] is in the alphabet
    A-Z, a-z, 0-9, '-', '_'. *)
Theorem check_valid_id_iff (s : pystr) :
  check_valid_id s = true ↔ length s = 11%nat ∧ Forall in_alphabet s.
Proof.
  unfold check_valid_id. cbv zeta.
  rewrite andb_true_iff, !bool_decide_eq_true, subset_vid_chars. tauto.
Qed.

(** An id, the same with a disallowed character, and two of the wrong
    length. *)
Example check_valid_id_samples :
  check_valid_id (py "dQw4w9WgXcQ") = true
  ∧ check_valid_id (py "dQw4w9WgXc!") = false
  ∧ check_valid_id (py "dQw4w9WgXc") = false
  ∧ check_valid_id (py "dQw4w9WgXcQQ") = false.
Proof. repeat split; vm_compute; reflexivity. Qed.

End ValidateFacts.

Module CliFacts.
Import Re Cli.

Lemma starts_with_trans (a b s : pystr) :
  starts_with a b = true → starts_with b s = true → starts_with a s = true.
Proof.
  revert b s. induction a as [|x a IH]; intros b s Hab Hbs; [done|].
  destruct b as [|y b]; [done|]. destruct s as [|z s]; [done|].
  simpl in *. apply andb_true_iff in Hab as [Hxy Hab].
  apply andb_true_iff in Hbs as [Hyz Hbs].
  apply N.eqb_eq in Hxy, Hyz. subst.
  rewrite N.eqb_refl. simpl. eauto.
Qed.

(** An alternative that starts with an earlier, non-empty one is never the
    one chosen: with [',|, '] the second delimiter cannot match. *)
Lemma sre_match_shadowed (a b : pystr) (s : pystr) (adv : bool) :
  a ≠ [] → a ≠ b → starts_with a b = true → sre_match [a; b] s adv ≠ Some b.
Proof.
  intros Ha Hne Hab. simpl.
  rewrite (bool_decide_eq_false_2 (a = [])) by done.
  rewrite andb_false_r, andb_true_r.
  destruct (starts_with a s) eqn:Has; [congruence|].
  destruct (starts_with b s) eqn:Hbs; [|done].
  rewrite (starts_with_trans a b s Hab Hbs) in Has. done.
Qed.

(** C2. On the token ["abc,def, ghi"] with the default delimiters the code
    returns ['abc', 'def', ' ghi']: the third item keeps its leading space,
    it is not the ['ghi'] of the specification. *)
Theorem extract_vid_from_cli_abc_def_ghi :
  extract_vid_from_cli (py "abc,def, ghi") default_delimiters
    default_extra_delim
  = Some [py "abc"; py "def"; py " ghi"]
  ∧ extract_vid_from_cli (py "abc,def, ghi") default_delimiters
      default_extra_delim
    ≠ Some [py "abc"; py "def"; py "ghi"].
Proof. split; [vm_compute; reflexivity | vm_compute; discriminate]. Qed.

End CliFacts.

Module ExtractFacts.
Import Validate Extract.

Lemma check_valid_id_nonempty (vid : pystr) :
  check_valid_id vid = true → vid ≠ [].
Proof.
  unfold check_valid_id. cbv zeta. intros H%andb_true_iff.
  destruct H as [H%bool_decide_eq_true _]. by destruct vid.
Qed.

Section WithLibrary.
Context {cls exn : Type} `{!Exceptions cls exn} `{!Library exn}.
Variable IOError : cls.

(** What [filter_vid] returns on a line that parses: the valid candidate,
    or a value that tests false. *)
Lemma filter_vid_parsed (line : pystr) :
  parses line →
  match valid_candidate line with
  | Some c => filter_vid line = inr (PyStr c) ∧ truthy (PyStr c) = true
  | None => ∃ v, filter_vid line = inr v ∧ truthy v = false
  end.
Proof.
  intros [p Hp]. unfold valid_candidate, candidate, filter_vid. rewrite Hp.
  assert (Hret : ∀ vid : pystr,
    match (if check_valid_id vid then Some vid else None) with
    | Some c =>
        inr (if check_valid_id vid then PyStr vid else PyNone)
          = (inr (PyStr c) : exn + pyval) ∧ truthy (PyStr c) = true
    | None =>
        ∃ v, inr (if check_valid_id vid then PyStr vid else PyNone)
               = (inr v : exn + pyval) ∧ truthy v = false
    end).
  { intros vid. destruct (check_valid_id vid) eqn:Hv.
    - split; [done|]. simpl.
      rewrite bool_decide_eq_false_2; [done|].
      by apply check_valid_id_nonempty.
    - by exists PyNone. }
  destruct (bool_decide (scheme p = [])); simpl.
  - apply Hret.
  - destruct (parse_qs (query p) !! py "v") as [[first rest]|]; simpl.
    + apply Hret.
    + by exists PyFalse.
Qed.

Lemma collect_parsed (lines : list pystr) (collection : list pyval) :
  Forall parses lines →
  collect lines collection
  = inr (collection ++ (PyStr <$> omap valid_candidate lines)).
Proof.
  intros Hall. revert collection.
  induction Hall as [|l lines Hl _ IH]; intros collection; simpl.
  - by rewrite app_nil_r.
  - pose proof (filter_vid_parsed l Hl) as Hf.
    destruct (valid_candidate l) as [c|].
    + destruct Hf as [-> ->]. simpl. rewrite IH, <- app_assoc. done.
    + destruct Hf as (v & -> & ->). simpl. apply IH.
Qed.

Lemma collect_raises (lines : list pystr) (collection : list pyval)
    (l : pystr) (e : exn) :
  l ∈ lines → urlparse l = inl e →
  ∃ e', collect lines collection = inl e'.
Proof.
  intros Hin He. revert collection.
  induction lines as [|l' lines IH]; intros collection.
  - by apply elem_of_nil in Hin.
  - simpl. destruct (filter_vid l') as [e'|v] eqn:Hf; [by eexists|].
    apply elem_of_cons in Hin as [<-|Hin].
    + unfold filter_vid in Hf. rewrite He in Hf. done.
    + destruct (negb (truthy v)); by apply IH.
Qed.

(** C3, as amended.  When the file is read and [urlparse] accepts each of
    its (right-stripped) lines, [extract_vid_from_file] returns the list,
    in line order, of the candidates that pass [check_valid_id]: for a line
    with a scheme the first value of its query parameter [v] (none if [v]
    is absent), for a line without a scheme the whole line.  Nothing is
    printed. *)
Theorem extract_vid_from_file_parsed (f : pystr) (raw : list pystr) :
  open_readlines f = inr raw →
  Forall parses (map rstrip raw) →
  extract_vid_from_file IOError f
  = mkRun (inr (RetList (PyStr <$> omap valid_candidate (map rstrip raw)))) [].
Proof.
  intros Hopen Hall. unfold extract_vid_from_file. rewrite Hopen.
  cbv zeta. by rewrite (collect_parsed _ _ Hall).
Qed.

(** C10, as amended.  When opening or reading the file raises an
    [IOError] (any instance of it), [extract_vid_from_file] prints the
    skip warning and returns [None], which is not the empty list; when the
    file is read and [urlparse] accepts each of its lines it returns a
    list and prints nothing; an exception that is not an [IOError] is not
    caught: it propagates and nothing is printed. *)
Theorem extract_vid_from_file_open (f : pystr) :
  (∀ e, open_readlines f = inl e → isinstance e IOError = true →
        extract_vid_from_file IOError f
        = mkRun (inr RetNone)
            [py "Could not open " ++ dquote ++ f ++ dquote ++ py "; skipping"]
        ∧ RetNone ≠ RetList [])
  ∧ (∀ raw, open_readlines f = inr raw → Forall parses (map rstrip raw) →
        ∃ l, extract_vid_from_file IOError f = mkRun (inr (RetList l)) [])
  ∧ (∀ e, open_readlines f = inl e → isinstance e IOError = false →
        extract_vid_from_file IOError f = mkRun (inl e) []).
Proof.
  unfold extract_vid_from_file. split; [|split].
  - intros e Hopen Hinst. rewrite Hopen, Hinst. done.
  - intros raw Hopen Hall. rewrite Hopen. cbv zeta.
    rewrite (collect_parsed _ _ Hall). by eexists.
  - intros e Hopen Hinst. by rewrite Hopen, Hinst.
Qed.

End WithLibrary.

Import Builtins Examples.

Lemma watch_lines_parse :
  Forall parses (map rstrip (map (λ l, l ++ newline) watch_lines)).
Proof. repeat constructor; eexists; vm_compute; reflexivity. Qed.

(** The scenario of the specification: the URL gives its [v], the free text
    is dropped, the bare id is kept. *)
Lemma extract_vid_from_file_parsed_witness :
  extract_vid_from_file IOError (py "ids.txt")
  = mkRun (inr (RetList [PyStr (py "abcDEF12345"); PyStr (py "dQw4w9WgXcQ")]))
      [].
Proof.
  exact (extract_vid_from_file_parsed IOError (py "ids.txt")
           (map (λ l, l ++ newline) watch_lines) eq_refl watch_lines_parse).
Defined.

(** C3 fails as stated: a readable file with the line ["http://["], on
    which [urlparse] raises [ValueError], yields no list at all; the
    valid id on the line before it is lost with it. *)
Lemma extract_vid_from_file_malformed_url :
  open_readlines (py "broken.txt")
  = inr [py "dQw4w9WgXcQ" ++ newline; py "http://[" ++ newline]
  ∧ outcome (extract_vid_from_file IOError (py "broken.txt"))
    = inl (mkExn ValueError "Invalid IPv6 URL")
  ∧ outcome (extract_vid_from_file IOError (py "broken.txt"))
    ≠ inr (RetList (PyStr <$> omap valid_candidate
                      [py "dQw4w9WgXcQ"; py "http://["])).
Proof. repeat split; vm_compute; congruence. Qed.

Lemma extract_vid_from_file_open_witness :
  (extract_vid_from_file IOError (py "missing.txt")
   = mkRun (inr RetNone)
       [py "Could not open " ++ dquote ++ py "missing.txt" ++ dquote
        ++ py "; skipping"]
   ∧ RetNone ≠ RetList [])
  ∧ (∃ l, extract_vid_from_file IOError (py "ids.txt")
          = mkRun (inr (RetList l)) [])
  ∧ extract_vid_from_file IOError (py "binary.dat")
    = mkRun (inl (mkExn UnicodeDecodeError "invalid start byte")) [].
Proof.
  split; [|split].
  - exact (proj1 (extract_vid_from_file_open IOError (py "missing.txt"))
             (mkExn FileNotFoundError "No such file or directory")
             eq_refl eq_refl).
  - exact (proj1 (proj2 (extract_vid_from_file_open IOError (py "ids.txt")))
             (map (λ l, l ++ newline) watch_lines) eq_refl watch_lines_parse).
  - exact (proj2 (proj2 (extract_vid_from_file_open IOError (py "binary.dat")))
             (mkExn UnicodeDecodeError "invalid start byte")
             eq_refl eq_refl).
Defined.

(** C10 fails as stated: ["broken.txt"] is read without error, yet the
    call does not return a list; [ValueError] leaves it. *)
Lemma extract_vid_from_file_readable_raises :
  open_readlines (py "broken.txt")
  = inr [py "dQw4w9WgXcQ" ++ newline; py "http://[" ++ newline]
  ∧ extract_vid_from_file IOError (py "broken.txt")
    = mkRun (inl (mkExn ValueError "Invalid IPv6 URL")) [].
Proof. split; vm_compute; reflexivity. Qed.

End ExtractFacts.

Module RetryFacts.
Import Retry.


Lemma sleeps_app {exn : Type} (t t' : list (event exn)) :
  sleeps (t ++ t') = sleeps t ++ sleeps t'.
Proof.
  induction t as [|ev t IH]; [done|].
  destruct ev; simpl; by rewrite ?IH.
Qed.

(** [random.uniform(0, 2**n)] lies in [[0, 2**n]]. *)
Lemma uniform_bounds (n : Z) (u : Q) :
  (0 <= u)%Q → (u < 1)%Q →
  (0 <= uniform 0 (inject_Z (2 ^ n)) u)%Q
  ∧ (uniform 0 (inject_Z (2 ^ n)) u <= inject_Z (2 ^ n))%Q.
Proof.
  intros H0 H1. unfold uniform.
  set (b := inject_Z (2 ^ n)).
  assert (Hp : (0 <= b)%Q).
  { change 0%Q with (inject_Z 0). unfold b. rewrite <- Zle_Qle.
    apply Z.pow_nonneg. lia. }
  assert (E : (0 + (b - 0) * u == b * u)%Q) by ring.
  rewrite E. split.
  - apply Qmult_le_0_compat; assumption.
  - rewrite <- (Qmult_1_r b) at 2.
    rewrite !(Qmult_comm b).
    apply Qmult_le_compat_r; [|assumption].
    apply Qlt_le_weak. assumption.
Qed.

Section WithOperation.
Context {cls exn R : Type} `{!Exceptions cls exn}.
Variable fun_ : nat → outcome R exn.
Variable random : nat → Q.
Variable retriable : list cls.

Lemma issubclass_refl (c : cls) : issubclass c c = true.
Proof. unfold issubclass. by rewrite bool_decide_eq_true_2. Qed.

(** An exception whose class is in the set is caught by
    [except tuple(retriable_exceptions)]. *)
Lemma caught_by_member (e : exn) :
  type_of e ∈ retriable → caught_by e retriable = true.
Proof.
  intros Hin. unfold caught_by. apply existsb_exists.
  exists (type_of e). split; [by apply list_elem_of_In|].
  apply issubclass_refl.
Qed.

(** A turn in which [fun] raises an exception whose class is not in the
    set ends the loop with that exception, whether [except] catches it (an
    instance of a subclass) or not; only the call is added to the trace. *)
Lemma iteration_not_member (max_retries : option Z) (st : state exn) (e : exn) :
  fun_ (calls st) = Raises e → type_of e ∉ retriable →
  ∃ r, iteration fun_ random retriable max_retries st
       = Done (Raises e)
           (mkState r (S (calls st)) (draws st) (trace st ++ [Call (calls st)])).
Proof.
  intros Hf Hnot. unfold iteration. rewrite Hf.
  destruct (caught_by e retriable); [|by eexists].
  rewrite bool_decide_eq_false_2 by done. simpl. by eexists.
Qed.


Lemma iteration_exhausted (m : Z) (st : state exn) (e : exn) :
  fun_ (calls st) = Raises e → type_of e ∈ retriable → m < retry st + 1 →
  iteration fun_ random retriable (Some m) st
  = Done (Raises e)
      (mkState (retry st + 1) (S (calls st)) (draws st)
         (trace st ++ [Call (calls st)] ++ [Debug RetryLimitReached])).
Proof.
  intros Hf Hin Hm. unfold iteration. rewrite Hf.
  rewrite (caught_by_member e Hin).
  rewrite bool_decide_eq_true_2 by done. simpl negb. cbv iota.
  replace (retry st + 1 >? m) with true
    by (symmetry; rewrite Z.gtb_ltb; apply Z.ltb_lt; lia).
  by rewrite <- app_assoc.
Qed.


(** After [n] turns that went round, the loop is where [turns] says. *)
Lemma loop_turns (max_retries : option Z) (n fuel : nat) (st st' : state exn) :
  turns fun_ random retriable max_retries n st = Some st' →
  loop fun_ random retriable max_retries (n + fuel) st
  = loop fun_ random retriable max_retries fuel st'.
Proof.
  revert st. induction n as [|n IH]; intros st; simpl.
  - by intros [= ->].
  - destruct (iteration _ _ _ _ st) as [r st1|st1]; [done|]. apply IH.
Qed.


(** C4. Whatever the retriable set and the operation: when a call of the
    operation, after any number of retries, raises an exception whose exact
    class is not a member of the set (be it a strict subclass of a member,
    which [except] catches, or unrelated), [retriable_exceptions] raises
    that exception at once: the trace grows by that call only, without
    another draw, log line, sleep or call. *)
Theorem not_member_propagates (max_retries : option Z) (n fuel : nat)
    (st : state exn) (e : exn) :
  turns fun_ random retriable max_retries n init = Some st →
  fun_ (calls st) = Raises e →
  type_of e ∉ retriable →
  ∃ st', retriable_exceptions fun_ random retriable max_retries (n + S fuel)
         = Some (Raises e, st')
         ∧ calls st' = S (calls st)
         ∧ draws st' = draws st
         ∧ trace st' = trace st ++ [Call (calls st)].
Proof.
  intros Hturns Hf Hnot. unfold retriable_exceptions.
  rewrite (loop_turns _ _ _ _ _ Hturns). simpl.
  destruct (iteration_not_member max_retries st e Hf Hnot) as [r ->].
  eexists. split; [reflexivity|]. done.
Qed.

(** C5. With [max_retries = 0] and an operation that always raises an
    exception whose class is in the set, the operation is called exactly
    once, the exhaustion line is written, and the exception of that call
    is raised; there is no draw and no sleep. *)
Theorem max_retries_zero (fuel : nat) :
  (∀ k, ∃ e, fun_ k = Raises e ∧ type_of e ∈ retriable) →
  ∃ e, fun_ 0%nat = Raises e
       ∧ retriable_exceptions fun_ random retriable (Some 0) (S fuel)
         = Some (Raises e,
                 mkState 1 1 0 [Call 0; Debug RetryLimitReached]).
Proof.
  intros Hall. destruct (Hall 0%nat) as (e & Hf & Hin).
  exists e. split; [done|].
  unfold retriable_exceptions. simpl.
  rewrite (iteration_exhausted 0 init e Hf Hin) by (simpl; lia). done.
Qed.

(** C6. When the first call of the operation raises an exception whose
    class is outside the set, [retriable_exceptions] raises it at once:
    the trace is that one call, there is no sleep and no second call. *)
Theorem first_call_not_member (max_retries : option Z) (fuel : nat) (e : exn) :
  fun_ 0%nat = Raises e →
  type_of e ∉ retriable →
  ∃ st', retriable_exceptions fun_ random retriable max_retries (S fuel)
         = Some (Raises e, st')
         ∧ trace st' = [Call 0]
         ∧ sleeps (trace st') = []
         ∧ calls st' = 1%nat.
Proof.
  intros Hf Hnot. unfold retriable_exceptions. simpl.
  destruct (iteration_not_member max_retries init e Hf Hnot) as [r ->].
  eexists. split; [reflexivity|]. done.
Qed.






End WithOperation.

Import Builtins Examples.

Lemma not_member_propagates_witness :
  ∃ st', retriable_exceptions fails_by_subclass one_half [ConnectionError]
           None 2
         = Some (Raises (mkExn ConnectionResetError "reset by peer"), st')
         ∧ calls st' = 2%nat
         ∧ draws st' = 1%nat
         ∧ trace st'
           = [Call 0;
              Debug (RetryableError 1 None
                       (mkExn ConnectionError "connection lost")
                       (uniform 0 (inject_Z 2) (1 # 2)));
              Sleep (uniform 0 (inject_Z 2) (1 # 2))] ++ [Call 1].
Proof.
  refine (not_member_propagates fails_by_subclass one_half [ConnectionError]
            None 1 0 _ (mkExn ConnectionResetError "reset by peer")
            eq_refl eq_refl _).
  vm_compute. intros H. inversion H; subst. inversion H2.
Defined.

Lemma max_retries_zero_witness :
  ∃ e, always_fails 0%nat = Raises e
       ∧ retriable_exceptions always_fails one_half [RequestError] (Some 0) 1
         = Some (Raises e, mkState 1 1 0 [Call 0; Debug RetryLimitReached]).
Proof.
  refine (max_retries_zero always_fails one_half [RequestError] 0 _).
  intros k. eexists. split; [reflexivity|]. apply list_elem_of_here.
Defined.

Lemma first_call_not_member_witness :
  ∃ st', retriable_exceptions always_fails one_half [ConnectionError]
           (Some 3) 1
         = Some (Raises (mkExn RequestError "quota exceeded"), st')
         ∧ trace st' = [Call 0]
         ∧ sleeps (trace st') = []
         ∧ calls st' = 1%nat.
Proof.
  refine (first_call_not_member always_fails one_half [ConnectionError]
            (Some 3) 0 (mkExn RequestError "quota exceeded") eq_refl _).
  intros H. inversion H; subst. inversion H2.
Defined.



End RetryFacts.

Module SigintFacts.
Import Sigint.

Lemma getsignal_signal (sig : nat) (h : handler) (t : sigtable) :
  getsignal sig (signal sig h t) = h.
Proof. unfold getsignal, signal. by rewrite bool_decide_eq_true_2. Qed.

Lemma getsignal_signal_ne (sig s : nat) (h : handler) (t : sigtable) :
  s ≠ sig → getsignal s (signal sig h t) = getsignal s t.
Proof. intros. unfold getsignal, signal. by rewrite bool_decide_eq_false_2. Qed.

(** C9. [with default_sigint(): body] runs the block with the default
    handler installed for SIGINT (and every other handler as it was), and
    whether the block completes or an exception or a cancellation leaves
    it, the statement ends the same way with the handler of SIGINT that
    was installed before, every other entry being as the block left it;
    closing the suspended generator restores the handler as well. *)
Theorem default_sigint_restores {exn : Type}
    (body : sigtable → ending (exn := exn) * sigtable) (t : sigtable) :
  let entered := signal SIGINT SIG_DFL t in
  getsignal SIGINT entered = SIG_DFL
  ∧ (∀ s, s ≠ SIGINT → getsignal s entered = getsignal s t)
  ∧ with_default_sigint body t
    = (match fst (body entered) with
       | Completed => WithCompleted
       | Raised e => WithRaised e
       end,
       signal SIGINT (getsignal SIGINT t) (snd (body entered)))
  ∧ getsignal SIGINT (snd (with_default_sigint body t)) = getsignal SIGINT t
  ∧ (∀ s, s ≠ SIGINT →
          getsignal s (snd (with_default_sigint body t))
          = getsignal s (snd (body entered)))
  ∧ (∀ t', gen_close (Suspended (getsignal SIGINT t)) t'
           = (Finished, signal SIGINT (getsignal SIGINT t) t')).
Proof.
  intros entered.
  assert (Hwith : with_default_sigint body t
    = (match fst (body entered) with
       | Completed => WithCompleted
       | Raised e => WithRaised e
       end,
       signal SIGINT (getsignal SIGINT t) (snd (body entered)))).
  { unfold with_default_sigint. cbn [gen_next]. fold entered.
    destruct (body entered) as [[|e] t2]; reflexivity. }
  split; [apply getsignal_signal|].
  split; [intros s Hs; by apply getsignal_signal_ne|].
  split; [exact Hwith|].
  rewrite Hwith. cbn [snd].
  split; [apply getsignal_signal|].
  split; [intros s Hs; by apply getsignal_signal_ne|].
  reflexivity.
Qed.

Import Builtins Examples.

(** A block that replaces the handler and is interrupted: the
    interruption goes on and the handler is the one from before. *)
Example interrupted_block_restored :
  fst (with_default_sigint interrupted_block table)
  = WithRaised (mkExn KeyboardInterrupt "")
  ∧ getsignal SIGINT (snd (with_default_sigint interrupted_block table))
    = Callable 7.
Proof. split; reflexivity. Qed.

End SigintFacts.

(** ** Further properties of the validator and of the command-line split *)

Module ValidateMore.
Import Validate.

(** X1. [check_valid_id] looks at the length and at the set of characters only:
    reordering the characters does not change its answer. *)
Theorem check_valid_id_permutation (s t : pystr) :
  s ≡ₚ t → check_valid_id s = check_valid_id t.
Proof.
  intros Hp. unfold check_valid_id. cbv zeta.
  rewrite (Permutation_length Hp).
  by rewrite (list_to_set_perm_L (C:=gset N) s t Hp).
Qed.

Lemma check_valid_id_permutation_witness :
  check_valid_id (py "dQw4w9WgXcQ") = check_valid_id (rev (py "dQw4w9WgXcQ")).
Proof.
  exact (check_valid_id_permutation (py "dQw4w9WgXcQ")
           (rev (py "dQw4w9WgXcQ")) (Permutation_rev _)).
Defined.

End ValidateMore.

Module CliMore.
Import Re Cli.

Lemma default_pattern :
  re_compile (join (py "|") (default_delimiters ++ default_extra_delim))
  = Some [[Str.comma]; [Str.comma; 32%N]].
Proof. vm_compute. reflexivity. Qed.

(** With the alternatives [','] and [', '] the split loop is the split at
    each comma, once it has one step per character and one more. *)
Lemma pattern_split_comma (s seg : pystr) (fuel : nat) :
  (length s < fuel)%nat →
  pattern_split fuel [[Str.comma]; [Str.comma; 32%N]] s seg false
  = Urllib.split_on Str.comma s seg.
Proof.
  revert seg fuel. induction s as [|c s IH]; intros seg fuel Hlen.
  - destruct fuel as [|fuel]; [simpl in Hlen; lia|]. reflexivity.
  - destruct fuel as [|fuel]; [simpl in Hlen; lia|].
    simpl in Hlen. cbn [pattern_split sre_match starts_with].
    rewrite !andb_false_r. cbn [negb].
    rewrite (N.eqb_sym Str.comma c). cbn [Urllib.split_on].
    destruct (c =? Str.comma)%N eqn:Hc.
    + cbn [andb length drop].
      rewrite (bool_decide_eq_false_2 ([Str.comma] = [])) by done.
      f_equal. apply IH. lia.
    + cbn [andb]. apply IH. lia.
Qed.

Lemma join_cons_cons (sep p q : pystr) (ps : list pystr) :
  join sep (p :: q :: ps) = p ++ sep ++ join sep (q :: ps).
Proof. reflexivity. Qed.

Lemma join_split_on (c : N) (s cur : pystr) :
  join [c] (Urllib.split_on c s cur) = cur ++ s.
Proof.
  revert cur. induction s as [|x s IH]; intros cur; simpl.
  - by rewrite app_nil_r.
  - destruct (x =? c)%N eqn:Hx.
    + apply N.eqb_eq in Hx as ->.
      specialize (IH []).
      destruct (Urllib.split_on c s []) as [|p ps] eqn:Hs.
      * by destruct s; simpl in Hs; [|destruct (_ =? _)%N].
      * rewrite join_cons_cons, IH. done.
    + rewrite IH, <- app_assoc. done.
Qed.

Lemma split_on_no_sep (c : N) (s cur : pystr) :
  c ∉ cur → Forall (λ p, c ∉ p) (Urllib.split_on c s cur).
Proof.
  revert cur. induction s as [|x s IH]; intros cur Hcur; simpl.
  - by constructor.
  - destruct (x =? c)%N eqn:Hx.
    + constructor; [done|]. apply IH. apply not_elem_of_nil.
    + apply IH. apply N.eqb_neq in Hx.
      rewrite elem_of_app, list_elem_of_singleton. intros [?|?]; congruence.
Qed.

(** X2. With the default delimiters [extract_vid_from_cli] is [vid.split(',')]
    for every token: the delimiter [', '] never takes effect. *)
Theorem extract_vid_from_cli_default (vid : pystr) :
  extract_vid_from_cli vid default_delimiters default_extra_delim
  = Some (Str.split Str.comma vid).
Proof.
  unfold extract_vid_from_cli, split, Str.split. cbv zeta.
  rewrite default_pattern. simpl mbind. cbn [option_bind].
  rewrite pattern_split_comma by lia. reflexivity.
Qed.

(** X3. With the default delimiters nothing of the token is lost: no piece
    contains a comma, and the pieces joined by commas are the token. *)
Theorem extract_vid_from_cli_join (vid : pystr) :
  ∃ ids, extract_vid_from_cli vid default_delimiters default_extra_delim
         = Some ids
         ∧ Forall (λ p, Str.comma ∉ p) ids
         ∧ join [Str.comma] ids = vid.
Proof.
  exists (Str.split Str.comma vid). split.
  { unfold extract_vid_from_cli, split, Str.split. cbv zeta.
    rewrite default_pattern. simpl mbind. cbn [option_bind].
    by rewrite pattern_split_comma by lia. }
  split; [apply split_on_no_sep, not_elem_of_nil|].
  apply (join_split_on Str.comma vid []).
Qed.

End CliMore.

(** ** Further properties of the extraction from a file *)

Module ExtractMore.
Import Validate Extract.

Section WithLibrary.
Context {cls exn : Type} `{!Exceptions cls exn} `{!Library exn}.
Variable IOError : cls.

Lemma filter_vid_truthy (line : pystr) (v : pyval) :
  filter_vid line = inr v → truthy v = true →
  ∃ s, v = PyStr s ∧ check_valid_id s = true.
Proof.
  unfold filter_vid. intros Hf Ht.
  assert (Hret : ∀ vid : pystr,
            (inr (if check_valid_id vid then PyStr vid else PyNone)
             : exn + pyval) = inr v →
            ∃ s, v = PyStr s ∧ check_valid_id s = true).
  { intros vid Hv. destruct (check_valid_id vid) eqn:Hc.
    - injection Hv as <-. eauto.
    - injection Hv as <-. done. }
  destruct (urlparse line) as [e|p]; [done|].
  destruct (negb (bool_decide (scheme p = []))).
  - destruct (parse_qs (query p) !! py "v") as [[first rest]|].
    + by apply (Hret first).
    + injection Hf as <-. done.
  - by apply (Hret line).
Qed.

Lemma collect_valid (lines : list pystr) (collection l : list pyval) :
  Forall (λ v, ∃ s, v = PyStr s ∧ check_valid_id s = true) collection →
  collect lines collection = inr l →
  Forall (λ v, ∃ s, v = PyStr s ∧ check_valid_id s = true) l
  ∧ (length l ≤ length collection + length lines)%nat.
Proof.
  revert collection. induction lines as [|line lines IH];
    intros collection Hall Hc; simpl in Hc.
  - injection Hc as <-. split; [done|lia].
  - destruct (filter_vid line) as [e|v] eqn:Hf; [done|].
    destruct (truthy v) eqn:Ht; simpl in Hc.
    + destruct (IH (collection ++ [v])) as [H1 H2]; [|done|].
      * apply Forall_app. split; [done|]. constructor; [|done].
        by apply (filter_vid_truthy line).
      * split; [done|]. rewrite length_app in H2. simpl in *. lia.
    + destruct (IH collection Hall Hc) as [H1 H2].
      split; [done|]. simpl. lia.
Qed.

(** X4. Whatever [urlparse], [parse_qs] and the file system do: a list that
    [extract_vid_from_file] returns holds nothing but strings that pass
    [check_valid_id], and at most one for each line of the file. *)
Theorem extract_vid_from_file_only_valid (f : pystr) (l : list pyval) :
  outcome (extract_vid_from_file IOError f) = inr (RetList l) →
  Forall (λ v, ∃ s, v = PyStr s ∧ check_valid_id s = true) l
  ∧ ∃ raw, open_readlines f = inr raw ∧ (length l ≤ length raw)%nat.
Proof.
  unfold extract_vid_from_file. cbv zeta.
  destruct (open_readlines f) as [e|raw].
  - destruct (isinstance e IOError); simpl; intros [=].
  - destruct (collect (map rstrip raw) []) as [e|l'] eqn:Hc; simpl;
      intros [= <-].
    destruct (collect_valid _ _ _ (Forall_nil_2 _) Hc) as [H1 H2].
    split; [done|]. exists raw. split; [done|].
    rewrite length_map in H2. simpl in H2. lia.
Qed.

End WithLibrary.

Import Builtins Examples.

Lemma extract_vid_from_file_only_valid_witness :
  Forall (λ v, ∃ s, v = PyStr s ∧ check_valid_id s = true)
    [PyStr (py "abcDEF12345"); PyStr (py "dQw4w9WgXcQ")]
  ∧ ∃ raw, open_readlines (py "ids.txt") = inr raw ∧ (2 ≤ length raw)%nat.
Proof.
  exact (extract_vid_from_file_only_valid IOError (py "ids.txt")
           [PyStr (py "abcDEF12345"); PyStr (py "dQw4w9WgXcQ")] eq_refl).
Defined.

End ExtractMore.

(** ** Further properties of [retriable_exceptions] *)

Module RetryMore.
Import Retry RetryInv RetryFacts.

Section WithOperation.
Context {cls exn R : Type} `{!Exceptions cls exn}.
Variable fun_ : nat → outcome R exn.
Variable random : nat → Q.
Variable retriable : list cls.

(** A turn goes round only after a failure of a retriable class, within
    the budget. *)
Lemma iteration_again (max_retries : option Z) (st st' : state exn) :
  iteration fun_ random retriable max_retries st = Again st' →
  ∃ e, fun_ (calls st) = Raises e ∧ type_of e ∈ retriable
       ∧ match max_retries with
         | Some m => retry st + 1 <= m
         | None => True
         end
       ∧ st' = mkState (retry st + 1) (S (calls st)) (S (draws st))
                 (trace st ++
                  [Call (calls st);
                   Debug (RetryableError (retry st + 1) (or_dash max_retries) e
                            (uniform 0 (inject_Z (2 ^ (retry st + 1)))
                               (random (draws st))));
                   Sleep (uniform 0 (inject_Z (2 ^ (retry st + 1)))
                            (random (draws st)))]).
Proof.
  unfold iteration. destruct (fun_ (calls st)) as [v|e]; [done|].
  destruct (caught_by e retriable); [|done].
  destruct (decide (type_of e ∈ retriable)) as [Hin|Hnot].
  - rewrite bool_decide_eq_true_2 by done. cbn [negb].
    destruct max_retries as [m|].
    + destruct (retry st + 1 >? m) eqn:Hm; [done|].
      intros [= <-]. exists e. repeat split; try done.
      * rewrite Z.gtb_ltb in Hm. apply Z.ltb_ge in Hm. lia.
      * by rewrite <- app_assoc.
    + intros [= <-]. exists e. repeat split; try done.
      by rewrite <- app_assoc.
  - rewrite bool_decide_eq_false_2 by done. done.
Qed.

(** A turn that ends the loop hands on what the call gave, and neither
    draws nor sleeps. *)
Lemma iteration_done (max_retries : option Z) (st st' : state exn)
    (r : outcome R exn) :
  iteration fun_ random retriable max_retries st = Done r st' →
  fun_ (calls st) = r ∧ calls st' = S (calls st) ∧ draws st' = draws st
  ∧ sleeps (trace st') = sleeps (trace st).
Proof.
  unfold iteration. destruct (fun_ (calls st)) as [v|e].
  - intros [= <- <-]. cbn. rewrite sleeps_app. cbn. by rewrite app_nil_r.
  - destruct (caught_by e retriable).
    + destruct (negb _).
      * intros [= <- <-]. cbn. rewrite sleeps_app. cbn. by rewrite app_nil_r.
      * destruct max_retries as [m|]; [|done].
        destruct (retry st + 1 >? m); [|done].
        intros [= <- <-]. cbn. rewrite !sleeps_app. cbn.
        by rewrite !app_nil_r.
    + intros [= <- <-]. cbn. rewrite sleeps_app. cbn. by rewrite app_nil_r.
Qed.

Lemma steady_init : steady (init (exn := exn)).
Proof. done. Qed.

Lemma steady_again (max_retries : option Z) (st st' : state exn) :
  steady st →
  iteration fun_ random retriable max_retries st = Again st' →
  steady st' ∧ calls st' = S (calls st)
  ∧ sleeps (trace st') = sleeps (trace st) ++ [wait random (calls st)].
Proof.
  intros (Hr & Hd & Hs) Hit.
  destruct (iteration_again _ _ _ Hit) as (e & _ & _ & _ & ->).
  assert (Hsl : sleeps (trace st ++
                  [Call (calls st);
                   Debug (RetryableError (retry st + 1) (or_dash max_retries) e
                            (uniform 0 (inject_Z (2 ^ (retry st + 1)))
                               (random (draws st))));
                   Sleep (uniform 0 (inject_Z (2 ^ (retry st + 1)))
                            (random (draws st)))])
                = sleeps (trace st) ++ [wait random (calls st)]).
  { rewrite sleeps_app. cbn [sleeps]. rewrite Hd, Hr. unfold wait.
    replace (Z.of_nat (calls st) + 1) with (Z.of_nat (S (calls st))) by lia.
    done. }
  unfold steady. cbn [retry calls draws trace]. rewrite Hsl.
  rewrite length_app, Hs, Hd, Hr. cbn [length].
  repeat split; lia.
Qed.

Lemma loop_steady (max_retries : option Z) (fuel : nat) (st st' : state exn)
    (r : outcome R exn) :
  steady st →
  loop fun_ random retriable max_retries fuel st = Some (r, st') →
  ∃ k, calls st' = S k ∧ fun_ k = r
       ∧ length (sleeps (trace st')) = k ∧ draws st' = k.
Proof.
  revert st. induction fuel as [|fuel IH]; intros st Hst; [done|]. simpl.
  destruct (iteration _ _ _ _ st) as [r1 st1|st1] eqn:Hit.
  - intros [= <- <-].
    destruct (iteration_done _ _ _ _ Hit) as (Hf & Hc & Hd & Hs).
    destruct Hst as (_ & Hd0 & Hs0).
    exists (calls st). repeat split; congruence.
  - apply IH. by destruct (steady_again _ _ _ Hst Hit).
Qed.


Lemma loop_more (max_retries : option Z) (n n' : nat) (st : state exn)
    (x : outcome R exn * state exn) :
  loop fun_ random retriable max_retries n st = Some x → (n ≤ n')%nat →
  loop fun_ random retriable max_retries n' st = Some x.
Proof.
  revert n' st. induction n as [|n IH]; intros n' st; [done|].
  intros Hl Hle. destruct n' as [|n']; [lia|]. simpl in *.
  destruct (iteration _ _ _ _ st); [done|]. apply IH; [done|lia].
Qed.

Lemma loop_S (max_retries : option Z) (fuel : nat) (st : state exn) :
  loop fun_ random retriable max_retries (S fuel) st
  = match iteration fun_ random retriable max_retries st with
    | Done r st' => Some (r, st')
    | Again st' => loop fun_ random retriable max_retries fuel st'
    end.
Proof. reflexivity. Qed.

Lemma loop_bounded (m : Z) (n : nat) (st : state exn) :
  m - retry st <= Z.of_nat n →
  ∃ r st', loop fun_ random retriable (Some m) (S n) st = Some (r, st')
           ∧ (calls st' ≤ calls st + S n)%nat.
Proof.
  revert st. induction n as [|n IH]; intros st Hm; rewrite loop_S.
  - destruct (iteration _ _ _ _ st) as [r st'|st'] eqn:Hit.
    + destruct (iteration_done _ _ _ _ Hit) as (_ & Hc & _).
      exists r, st'. split; [done|lia].
    + destruct (iteration_again _ _ _ Hit) as (e & _ & _ & Hb & _). lia.
  - destruct (iteration _ _ _ _ st) as [r st'|st'] eqn:Hit.
    + destruct (iteration_done _ _ _ _ Hit) as (_ & Hc & _).
      exists r, st'. split; [done|lia].
    + destruct (iteration_again _ _ _ Hit) as (e & _ & _ & Hb & ->).
      match goal with
      | |- context [loop _ _ _ _ (S n) ?s1] =>
          destruct (IH s1) as (r & st' & Hl & Hc)
      end.
      { cbn. lia. }
      exists r, st'. split; [exact Hl|]. cbn in Hc. lia.
Qed.

(** X6. With a budget [max_retries = m] the loop always ends, whatever the
    operation does: within [m + 1] turns (one turn if [m] is negative),
    after at most [m + 1] calls of the operation and at most [m]
    sleeps. *)
Theorem bounded_retries_terminate (m : Z) (fuel : nat) :
  (Z.to_nat m < fuel)%nat →
  ∃ r st,
    retriable_exceptions fun_ random retriable (Some m) fuel = Some (r, st)
    ∧ (calls st ≤ Z.to_nat m + 1)%nat
    ∧ (length (sleeps (trace st)) ≤ Z.to_nat m)%nat.
Proof.
  intros Hfuel. unfold retriable_exceptions.
  destruct (loop_bounded m (Z.to_nat m) init) as (r & st & Hl & Hc).
  { cbn. lia. }
  exists r, st.
  assert (Hl' : loop fun_ random retriable (Some m) fuel init = Some (r, st))
    by (apply (loop_more _ _ _ _ _ Hl); lia).
  split; [exact Hl'|].
  destruct (loop_steady _ _ _ _ _ steady_init Hl') as (k & Hk & _ & Hs & _).
  cbn in Hc. lia.
Qed.

(** [n] turns that went round leave a steady state with [n] calls, whose
    sleeps are the waits after the calls 0 to [n - 1]. *)
Lemma turns_schedule (max_retries : option Z) (n : nat) (st0 st : state exn) :
  steady st0 →
  turns fun_ random retriable max_retries n st0 = Some st →
  steady st ∧ calls st = (calls st0 + n)%nat
  ∧ sleeps (trace st)
    = sleeps (trace st0) ++ map (wait random) (seq (calls st0) n).
Proof.
  revert st0. induction n as [|n IH]; intros st0 Hst; simpl.
  - intros [= <-]. rewrite app_nil_r. split; [done|]. split; [lia|done].
  - destruct (iteration _ _ _ _ st0) as [r st1|st1] eqn:Hit; [done|].
    intros Ht. destruct (steady_again _ _ _ Hst Hit) as (Hst1 & Hc1 & Hs1).
    destruct (IH st1 Hst1 Ht) as (H1 & H2 & H3).
    split; [done|]. split; [lia|].
    rewrite H3, Hs1, Hc1, <- app_assoc. done.
Qed.

Lemma wait_bounds (i : nat) :
  (∀ k, (0 <= random k)%Q ∧ (random k < 1)%Q) →
  (0 <= wait random i)%Q
  ∧ (wait random i <= inject_Z (2 ^ Z.of_nat (S i)))%Q.
Proof. intros Hr. destruct (Hr i). by apply uniform_bounds. Qed.

Lemma total_waits (a n : nat) :
  (∀ k, (0 <= random k)%Q ∧ (random k < 1)%Q) →
  (total (map (wait random) (seq a n))
   <= inject_Z (2 ^ Z.of_nat (S (a + n)) - 2 ^ Z.of_nat (S a)))%Q.
Proof.
  intros Hr. revert a. induction n as [|n IH]; intros a.
  - cbn [seq map total foldr]. rewrite Nat.add_0_r, Z.sub_diag. apply Qle_refl.
  - cbn [seq map total foldr]. fold (total (map (wait random) (seq (S a) n))).
    destruct (wait_bounds a Hr) as [_ Hw]. specialize (IH (S a)).
    eapply Qle_trans; [apply Qplus_le_compat; [exact Hw|exact IH]|].
    rewrite <- inject_Z_plus, <- Zle_Qle.
    replace (S (S a + n)) with (S (a + S n)) by lia.
    replace (Z.of_nat (S (S a))) with (Z.of_nat (S a) + 1) by lia.
    rewrite (Z.pow_add_r 2 (Z.of_nat (S a)) 1) by lia. lia.
Qed.

(** X7. The backoff schedule: after [n] retries the loop has slept [n] times,
    the i-th time (from 1) for [uniform(0, 2**i)] seconds, which is at most
    [2**i]; in all it has waited at most [2**(n+1) - 2] seconds. *)
Theorem backoff_schedule (max_retries : option Z) (n : nat) (st : state exn) :
  (∀ k, (0 <= random k)%Q ∧ (random k < 1)%Q) →
  turns fun_ random retriable max_retries n init = Some st →
  sleeps (trace st) = map (wait random) (seq 0 n)
  ∧ Forall2 (λ q i, (0 <= q)%Q ∧ (q <= inject_Z (2 ^ Z.of_nat (S i)))%Q)
      (sleeps (trace st)) (seq 0 n)
  ∧ (total (sleeps (trace st)) <= inject_Z (2 ^ Z.of_nat (S n) - 2))%Q.
Proof.
  intros Hr Ht.
  destruct (turns_schedule _ _ _ _ steady_init Ht) as (_ & _ & Hs).
  cbn in Hs. rewrite Hs. split; [done|]. split.
  - apply Forall2_fmap_l, Forall_Forall2_diag, Forall_forall.
    intros i _. by apply wait_bounds.
  - apply (total_waits 0 n Hr).
Qed.





Lemma iteration_done_trace (max_retries : option Z) (st st' : state exn)
    (r : outcome R exn) :
  iteration fun_ random retriable max_retries st = Done r st' →
  trace st' = trace st ++ [Call (calls st)]
  ∨ trace st' = trace st ++ [Call (calls st); Debug RetryLimitReached].
Proof.
  unfold iteration. destruct (fun_ (calls st)) as [v|e].
  - intros [= <- <-]. by left.
  - destruct (caught_by e retriable).
    + destruct (negb _).
      * intros [= <- <-]. by left.
      * destruct max_retries as [m|]; [|done].
        destruct (retry st + 1 >? m); [|done].
        intros [= <- <-]. right. cbn. by rewrite <- app_assoc.
    + intros [= <- <-]. by left.
Qed.

Lemma loop_retry_lines (m : Z) (fuel : nat) (st st' : state exn)
    (r : outcome R exn) :
  steady st → Forall (retry_line_ok m) (trace st) →
  loop fun_ random retriable (Some m) fuel st = Some (r, st') →
  Forall (retry_line_ok m) (trace st').
Proof.
  revert st. induction fuel as [|fuel IH]; intros st Hst Hok; [done|].
  rewrite loop_S.
  destruct (iteration _ _ _ _ st) as [r1 st1|st1] eqn:Hit.
  - intros [= <- <-].
    destruct (iteration_done_trace _ _ _ _ Hit) as [-> | ->];
      apply Forall_app; (split; [done|]); by repeat constructor.
  - destruct (steady_again _ _ _ Hst Hit) as (Hst1 & _ & _).
    apply IH; [done|].
    destruct (iteration_again _ _ _ Hit) as (e & _ & _ & Hb & ->).
    cbn [trace]. apply Forall_app. split; [done|].
    destruct Hst as (Hr & _).
    assert (Hm : 1 <= retry st + 1 <= m) by lia.
    repeat constructor; cbn; try lia.
    unfold or_dash. destruct (m =? 0) eqn:H0; [|done].
    apply Z.eqb_eq in H0. lia.
Qed.

(** X10. With a budget [max_retries = m], every retry line the loop hands
    to [debug] shows an attempt number between 1 and [m] and [m] itself as
    the budget: the dash of [max_retries or "-"] is shown for
    [max_retries = None] only, never for a budget of 0. *)
Theorem retry_lines_show_budget (m : Z) (fuel : nat) (r : outcome R exn)
    (st : state exn) :
  retriable_exceptions fun_ random retriable (Some m) fuel = Some (r, st) →
  Forall (retry_line_ok m) (trace st).
Proof. apply loop_retry_lines; [apply steady_init | constructor]. Qed.

End WithOperation.

Import Builtins Examples.

Lemma fails_twice_run :
  retriable_exceptions fails_twice one_half [ConnectionError; RequestError]
    (Some 3) 5
  = Some (Returns 42,
          mkState 2 3 2
            [Call 0;
             Debug (RetryableError 1 (Some 3)
                      (mkExn ConnectionError "connection lost")
                      (uniform 0 (inject_Z 2) (1 # 2)));
             Sleep (uniform 0 (inject_Z 2) (1 # 2));
             Call 1;
             Debug (RetryableError 2 (Some 3)
                      (mkExn RequestError "quota exceeded")
                      (uniform 0 (inject_Z 4) (1 # 2)));
             Sleep (uniform 0 (inject_Z 4) (1 # 2));
             Call 2]).
Proof. reflexivity. Qed.

Lemma one_half_unit (k : nat) : (0 <= one_half k)%Q ∧ (one_half k < 1)%Q.
Proof. split; [discriminate | reflexivity]. Qed.


Lemma bounded_retries_terminate_witness :
  ∃ r st,
    retriable_exceptions always_fails one_half [RequestError] (Some 2) 3
    = Some (r, st)
    ∧ (calls st ≤ 3)%nat ∧ (length (sleeps (trace st)) ≤ 2)%nat.
Proof.
  refine (bounded_retries_terminate always_fails one_half [RequestError]
            2 3 _).
  cbn. lia.
Defined.

Lemma backoff_schedule_witness :
  ∃ st, turns always_fails one_half [RequestError] None 3 init = Some st
        ∧ sleeps (trace st) = map (wait one_half) (seq 0 3)
        ∧ (total (sleeps (trace st)) <= inject_Z 14)%Q.
Proof.
  assert (Hturns : ∃ st, turns always_fails one_half [RequestError] None 3
                           init = Some st)
    by (eexists; reflexivity).
  destruct Hturns as [st Hturns]. exists st. split; [exact Hturns|].
  destruct (backoff_schedule always_fails one_half [RequestError] None 3 st
              one_half_unit Hturns) as (Hs & _ & Ht).
  split; [exact Hs | exact Ht].
Defined.



Lemma retry_lines_show_budget_witness :
  Forall (retry_line_ok 3)
    [Call 0;
     Debug (RetryableError 1 (Some 3)
              (mkExn ConnectionError "connection lost")
              (uniform 0 (inject_Z 2) (1 # 2)));
     Sleep (uniform 0 (inject_Z 2) (1 # 2));
     Call 1;
     Debug (RetryableError 2 (Some 3)
              (mkExn RequestError "quota exceeded")
              (uniform 0 (inject_Z 4) (1 # 2)));
     Sleep (uniform 0 (inject_Z 4) (1 # 2));
     Call 2].
Proof.
  exact (retry_lines_show_budget fails_twice one_half
           [ConnectionError; RequestError] 3 5 _ _ fails_twice_run).
Defined.

End RetryMore.

(** ** [catch_exceptions] *)

Module CatchFacts.
Import Retry Catch.

Section WithClasses.
Context {cls exn R : Type} `{!Exceptions cls exn} `{!ExceptionText cls exn}.

Lemma dict_get_Some (d : list (cls * Z)) (k : cls) (v : Z) :
  dict_get d k = Some v → (k, v) ∈ d.
Proof.
  induction d as [|[k' v'] d IH]; [done|]. simpl.
  destruct (decide (k' = k)) as [->|Hne].
  - rewrite bool_decide_eq_true_2 by done. intros [= ->]. apply list_elem_of_here.
  - rewrite bool_decide_eq_false_2 by done. intros Hd.
    apply list_elem_of_further. auto.
Qed.

Lemma dict_get_None (d : list (cls * Z)) (k : cls) :
  dict_get d k = None ↔ k ∉ keys d.
Proof.
  induction d as [|[k' v'] d IH]; simpl.
  - split; [intros _; apply not_elem_of_nil | done].
  - rewrite not_elem_of_cons. destruct (decide (k' = k)) as [->|Hne].
    + rewrite bool_decide_eq_true_2 by done. split; [done|]. by intros [? _].
    + rewrite bool_decide_eq_false_2 by done. rewrite IH.
      split; [intros ?; split; [congruence|done] | by intros [_ ?]].
Qed.

(** X11. When no class is mapped to 0, the exit code is 0 exactly when the
    function returned. *)
Theorem exit_zero_iff_returned (exit_codes : list (cls * Z))
    (fun_ : outcome R exn) :
  Forall (λ kv, snd kv ≠ 0) exit_codes →
  fst (catch_exceptions exit_codes fun_) = Exit 0 ↔ ∃ v, fun_ = Returns v.
Proof.
  intros Hnz. unfold catch_exceptions. destruct fun_ as [v|e].
  - split; [by exists v | done].
  - split; [|by intros [v [=]]].
    destruct (caught_by e (keys exit_codes)); [|done].
    destruct (dict_get exit_codes (type_of e)) as [code|] eqn:Hd; [|done].
    simpl. intros [= ->]. apply dict_get_Some in Hd.
    rewrite Forall_forall in Hnz. by destruct (Hnz _ Hd).
Qed.

(** X12. What [catch_exceptions] does with an exception.  When its class is a
    key of [exit_codes], [debug] gets the line "[Class] text" and the code
    of that class is returned.  When it is an instance of a key without its
    class being one (a strict subclass), [debug] gets the line and
    [exit_codes[exc.__class__]] raises [KeyError]: no exit code is
    returned.  Otherwise the exception goes on and [debug] is not
    called. *)
Theorem catch_raised (exit_codes : list (cls * Z)) (e : exn) :
  let line := py "[" ++ class_name (type_of e) ++ py "] " ++ exn_str e in
  let r := catch_exceptions (R := R) exit_codes (Raises e) in
  (type_of e ∈ keys exit_codes →
     ∃ code, (type_of e, code) ∈ exit_codes ∧ r = (Exit code, [line]))
  ∧ (type_of e ∉ keys exit_codes → caught_by e (keys exit_codes) = true →
     r = (KeyError (type_of e), [line]))
  ∧ (caught_by e (keys exit_codes) = false → r = (Propagated e, [])).
Proof.
  intros line r. unfold r, catch_exceptions. split; [|split].
  - intros Hin.
    assert (Hc : caught_by e (keys exit_codes) = true).
    { unfold caught_by. apply existsb_exists. exists (type_of e).
      split; [by apply list_elem_of_In|].
      unfold isinstance, issubclass. by rewrite bool_decide_eq_true_2. }
    rewrite Hc.
    destruct (dict_get exit_codes (type_of e)) as [code|] eqn:Hd.
    + exists code. split; [by apply dict_get_Some|done].
    + by apply dict_get_None in Hd.
  - intros Hnot ->. by rewrite (proj2 (dict_get_None _ _) Hnot).
  - by intros ->.
Qed.

(** An exit code that [catch_exceptions] returns for an exception is a
    value of the dict. *)
Lemma exit_code_raised (exit_codes : list (cls * Z)) (e : exn) (code : Z) :
  fst (catch_exceptions (R := R) exit_codes (Raises e)) = Exit code →
  code ∈ map snd exit_codes.
Proof.
  unfold catch_exceptions.
  destruct (caught_by e (keys exit_codes)); [|done].
  destruct (dict_get exit_codes (type_of e)) as [c|] eqn:Hd; [|done].
  simpl. intros [= ->]. apply dict_get_Some in Hd.
  apply list_elem_of_fmap. by exists (type_of e, code).
Qed.

End WithClasses.

Import Main.

Lemma exit_codes_nonzero : Forall (λ kv : ycls * Z, snd kv ≠ 0) EXIT_CODES.
Proof. repeat constructor; done. Qed.

Lemma exit_zero_iff_returned_witness :
  fst (catch_exceptions EXIT_CODES (Returns tt : outcome unit yexn)) = Exit 0
  ↔ ∃ v, (Returns tt : outcome unit yexn) = Returns v.
Proof.
  exact (exit_zero_iff_returned EXIT_CODES (Returns tt) exit_codes_nonzero).
Defined.

(** A request error gives the exit code 3 of [EXIT_CODES]; an instance of
    a subclass of a key gives [KeyError]. *)
Example catch_request_error :
  catch_exceptions (R := unit) EXIT_CODES
    (Raises (mkYexn RequestError (py "Server response: quota")))
  = (Exit 3, [py "[RequestError] Server response: quota"]).
Proof. reflexivity. Qed.

Lemma catch_raised_witness :
  catch_exceptions (R := unit) [(RuntimeError, 1)]
    (Raises (mkYexn NotImplementedError (py "later")))
  = (KeyError NotImplementedError, [py "[NotImplementedError] later"]).
Proof.
  refine (proj1 (proj2 (catch_raised (R := unit) [(RuntimeError, 1)]
                          (mkYexn NotImplementedError (py "later")))) _ _).
  - cbn. intros H. apply list_elem_of_singleton in H. discriminate.
  - reflexivity.
Defined.

End CatchFacts.

(** ** [string_to_dict] *)

Module StringToDictFacts.
Import Str StringToDict.

Lemma count_cons (c x : N) (s : pystr) :
  count c (x :: s) = if bool_decide (x = c) then S (count c s) else count c s.
Proof.
  unfold count. rewrite filter_cons.
  destruct (decide (x = c)) as [->|Hne].
  - by rewrite bool_decide_eq_true_2.
  - by rewrite bool_decide_eq_false_2.
Qed.

Lemma length_split_on (c : N) (s cur : pystr) :
  length (Urllib.split_on c s cur) = S (count c s).
Proof.
  revert cur. induction s as [|x s IH]; intros cur; [done|].
  cbn [Urllib.split_on]. rewrite count_cons.
  destruct (decide (x = c)) as [->|Hne].
  - rewrite N.eqb_refl, bool_decide_eq_true_2 by done. cbn. by rewrite IH.
  - rewrite (proj2 (N.eqb_neq x c) Hne), bool_decide_eq_false_2 by done.
    apply IH.
Qed.

Lemma length_split (c : N) (s : pystr) : length (split c s) = S (count c s).
Proof. apply length_split_on. Qed.

(** [dict()] accepts the items exactly when each has two elements;
    otherwise it names the first that has not. *)
Lemma dict_of_cases (items : list (list pystr)) (i : nat)
    (d : gmap (list N) (list N)) :
  match dict_of items i d with
  | inr _ => Forall (λ item, length item = 2%nat) items
  | inl (j, n) =>
      ∃ k item, j = (i + k)%nat ∧ items !! k = Some item
                ∧ length item = n ∧ n ≠ 2%nat
                ∧ Forall (λ item, length item = 2%nat) (take k items)
  end.
Proof.
  revert i d. induction items as [|item items IH]; intros i d; [by constructor|].
  assert (Hbad : length item ≠ 2%nat →
            dict_of (item :: items) i d = inl (i, length item)).
  { intros Hn. by destruct item as [|k [|v [|x item]]]. }
  destruct (decide (length item = 2%nat)) as [H2|Hn].
  - destruct item as [|k [|v [|x item]]]; try done.
    cbn [dict_of]. specialize (IH (S i) (<[k:=v]> d)).
    destruct (dict_of items (S i) (<[k:=v]> d)) as [[j n]|d'].
    + destruct IH as (k' & item' & -> & Hl & Hlen & Hn & Hall).
      exists (S k'), item'.
      split; [lia|]. split; [done|]. split; [done|]. split; [done|].
      cbn. by constructor.
    + by constructor.
  - rewrite (Hbad Hn). exists 0%nat, item.
    split; [lia|]. split; [done|]. split; [done|]. split; [done|].
    cbn. constructor.
Qed.

(** X13. [string_to_dict] returns [None] for [None] and for the empty string
    only; for any other string it returns a dict exactly when each piece
    between commas, stripped, holds one equals sign. *)
Theorem string_to_dict_dict_iff (string : option pystr) :
  (string_to_dict string = RNone ↔ string = None ∨ string = Some [])
  ∧ ∀ s, string = Some s → s ≠ [] →
      (∃ d, string_to_dict string = RDict d)
      ↔ Forall (λ piece, count equals (strip piece) = 1%nat) (split comma s).
Proof.
  split.
  - destruct string as [s|]; simpl; [|by split; [left|]].
    destruct (decide (s = [])) as [->|Hne].
    + split; [by right|done].
    + rewrite bool_decide_eq_false_2 by done.
      split; [|intros [?|[= ?]]; done].
      by destruct (dict_of _ _ _) as [[? ?]|?].
  - intros s -> Hne. simpl. rewrite bool_decide_eq_false_2 by done.
    pose proof (dict_of_cases (map (split equals) (map strip (split comma s)))
                  0 ∅) as Hd.
    assert (Hiff : Forall (λ item, length item = 2%nat)
                     (map (split equals) (map strip (split comma s)))
                   ↔ Forall (λ piece, count equals (strip piece) = 1%nat)
                       (split comma s)).
    { rewrite !Forall_fmap. apply Forall_iff. intros piece. simpl.
      rewrite length_split. lia. }
    destruct (dict_of _ _ _) as [[j n]|d].
    + split; [by intros [? [=]]|]. intros Hall%Hiff.
      destruct Hd as (k & item & _ & Hl & Hlen & Hn & _).
      rewrite Forall_forall in Hall.
      apply list_elem_of_lookup_2 in Hl. specialize (Hall _ Hl). congruence.
    + split; [by intros _; apply Hiff|]. intros _. by exists d.
Qed.

(** X14. The [ValueError] of [string_to_dict] names the first piece that has
    not exactly one equals sign: its position, and the number of its parts,
    which is one more than its equals signs. *)
Theorem string_to_dict_value_error (s : pystr) (i n : nat) :
  string_to_dict (Some s) = RValueError i n →
  ∃ piece, split comma s !! i = Some piece
           ∧ n = S (count equals (strip piece)) ∧ n ≠ 2%nat
           ∧ Forall (λ p, count equals (strip p) = 1%nat)
               (take i (split comma s)).
Proof.
  simpl. destruct (bool_decide (s = [])); [done|].
  pose proof (dict_of_cases (map (split equals) (map strip (split comma s)))
                0 ∅) as Hd.
  destruct (dict_of _ _ _) as [[j m]|d]; [|done].
  intros [= -> ->].
  destruct Hd as (k & item & -> & Hl & Hlen & Hn & Hall).
  rewrite !list_lookup_fmap in Hl.
  destruct (split comma s !! k) as [piece|] eqn:Hp; [|done].
  injection Hl as <-. exists piece. cbn.
  rewrite length_split in Hlen. repeat split; try done.
  rewrite <- !fmap_take, !Forall_fmap in Hall.
  eapply Forall_impl; [exact Hall|]. intros p. simpl.
  rewrite length_split. lia.
Qed.

Lemma string_to_dict_dict_iff_witness :
  (∃ d, string_to_dict (Some (py "latitude=41.4, longitude=2.2")) = RDict d)
  ↔ Forall (λ piece, count equals (strip piece) = 1%nat)
      (split comma (py "latitude=41.4, longitude=2.2")).
Proof.
  exact (proj2 (string_to_dict_dict_iff
                  (Some (py "latitude=41.4, longitude=2.2")))
           _ eq_refl ltac:(discriminate)).
Defined.

Lemma string_to_dict_value_error_witness :
  ∃ piece, split comma (py "latitude=41.4,north") !! 1%nat = Some piece
           ∧ 1%nat = S (count equals (strip piece)) ∧ 1%nat ≠ 2%nat
           ∧ Forall (λ p, count equals (strip p) = 1%nat)
               (take 1 (split comma (py "latitude=41.4,north"))).
Proof.
  exact (string_to_dict_value_error (py "latitude=41.4,north") 1 1 eq_refl).
Defined.

Lemma split_on_notin (c : N) (p cur : pystr) :
  c ∉ p → Urllib.split_on c p cur = [cur ++ p].
Proof.
  revert cur. induction p as [|x p IH]; intros cur Hc; simpl.
  - by rewrite app_nil_r.
  - apply not_elem_of_cons in Hc as [Hx Hp].
    rewrite (proj2 (N.eqb_neq x c)) by congruence.
    rewrite IH by done. by rewrite <- app_assoc.
Qed.

Lemma split_on_app (c : N) (p rest cur : pystr) :
  c ∉ p →
  Urllib.split_on c (p ++ c :: rest) cur
  = (cur ++ p) :: Urllib.split_on c rest [].
Proof.
  revert cur. induction p as [|x p IH]; intros cur Hc; simpl.
  - by rewrite N.eqb_refl, app_nil_r.
  - apply not_elem_of_cons in Hc as [Hx Hp].
    rewrite (proj2 (N.eqb_neq x c)) by congruence.
    rewrite IH by done. by rewrite <- app_assoc.
Qed.

Lemma lstrip_keeps (c : N) (s : pystr) :
  c ∉ Extract.whitespace →
  Extract.lstrip Extract.whitespace (c :: s) = c :: s.
Proof.
  intros Hc. simpl. unfold char_in. by rewrite bool_decide_eq_false_2.
Qed.

Lemma equals_not_space : equals ∉ Extract.whitespace.
Proof. apply (bool_decide_unpack _). vm_compute. reflexivity. Qed.

Lemma comma_not_equals_pair (kv : pystr * pystr) :
  plain kv → comma ∉ render_pair kv.
Proof.
  intros (Hk & Hv & _). unfold render_pair.
  rewrite !elem_of_app, list_elem_of_singleton.
  intros [?|[?|?]]; done.
Qed.

(** A plain pair, written [key=value], starts and ends with characters
    that [strip] keeps. *)
Lemma render_pair_ends (kv : pystr * pystr) :
  plain kv →
  (∃ c s, render_pair kv = c :: s ∧ c ∉ Extract.whitespace)
  ∧ (∃ c s, rev (render_pair kv) = c :: s ∧ c ∉ Extract.whitespace).
Proof.
  destruct kv as [k v]. intros (_ & _ & _ & _ & Hk & Hv).
  unfold render_pair. cbn [fst snd] in *. split.
  - destruct k as [|c k].
    + exists equals, v. split; [done|apply equals_not_space].
    + exists c, (k ++ [equals] ++ v). split; [done|]. by apply (Hk c k).
  - rewrite !rev_app_distr. cbn [rev app].
    destruct (rev v) as [|c r] eqn:Hr.
    + exists equals, (rev k). split; [done|apply equals_not_space].
    + exists c, (r ++ [equals] ++ rev k).
      split; [by rewrite <- app_assoc|].
      apply (Hv c (rev r)).
      rewrite <- (rev_involutive v), Hr. done.
Qed.

Lemma strip_render_pair (kv : pystr * pystr) :
  plain kv → strip (render_pair kv) = render_pair kv.
Proof.
  intros Hp. destruct (render_pair_ends kv Hp)
    as [(c & s & Hs & Hc) (c' & s' & Hs' & Hc')].
  unfold strip, Extract.rstrip.
  rewrite Hs', (lstrip_keeps c' s' Hc'), <- Hs', rev_involutive.
  rewrite Hs. by apply lstrip_keeps.
Qed.

Lemma strip_space_render_pair (kv : pystr * pystr) :
  plain kv → strip (32%N :: render_pair kv) = render_pair kv.
Proof.
  intros Hp. destruct (render_pair_ends kv Hp)
    as [(c & s & Hs & Hc) (c' & s' & Hs' & Hc')].
  unfold strip, Extract.rstrip. cbn [rev].
  rewrite Hs'. cbn [app]. rewrite (lstrip_keeps c' (s' ++ [32%N]) Hc').
  change (c' :: s' ++ [32%N]) with ((c' :: s') ++ [32%N]).
  rewrite <- Hs', rev_app_distr, rev_involutive. cbn [rev app].
  cbn [Extract.lstrip]. unfold char_in at 1.
  rewrite bool_decide_eq_true_2
    by (apply (bool_decide_unpack _); vm_compute; reflexivity).
  rewrite Hs. by apply lstrip_keeps.
Qed.

Lemma split_equals_render_pair (kv : pystr * pystr) :
  plain kv → split equals (render_pair kv) = [fst kv; snd kv].
Proof.
  intros (_ & _ & Hk & Hv & _). unfold split, render_pair. cbn [app].
  rewrite split_on_app by done. by rewrite split_on_notin.
Qed.

(** The pieces of the rendered text: the first pair, and each further one
    after a space. *)
Lemma split_comma_render (kv : pystr * pystr) (ps : list (pystr * pystr)) :
  Forall plain (kv :: ps) →
  split comma (render (kv :: ps))
  = render_pair kv :: map (λ kv', 32%N :: render_pair kv') ps.
Proof.
  revert kv. induction ps as [|kv' ps IH]; intros kv Hall.
  - apply Forall_inv in Hall. unfold split, render. cbn [map Re.join].
    by rewrite split_on_notin by by apply comma_not_equals_pair.
  - pose proof (Forall_inv Hall) as Hkv. apply Forall_inv_tail in Hall.
    specialize (IH kv' Hall).
    unfold split, render in *. cbn [map] in *.
    rewrite CliMore.join_cons_cons.
    change (py ", ") with (comma :: [32%N]). cbn [app].
    rewrite split_on_app by by apply comma_not_equals_pair.
    cbn [app]. f_equal.
    change (Urllib.split_on comma
              (32%N :: Re.join (comma :: [32%N])
                         (render_pair kv' :: map render_pair ps)) [])
      with (Urllib.split_on comma
              (Re.join (comma :: [32%N])
                 (render_pair kv' :: map render_pair ps)) [32%N]).
    clear IH Hkv kv.
    revert kv' Hall. induction ps as [|kv'' ps IH]; intros kv' Hall.
    + apply Forall_inv in Hall. cbn [map Re.join].
      by rewrite split_on_notin by by apply comma_not_equals_pair.
    + pose proof (Forall_inv Hall) as Hkv. apply Forall_inv_tail in Hall.
      cbn [map]. rewrite CliMore.join_cons_cons. cbn [app].
      rewrite split_on_app by by apply comma_not_equals_pair.
      f_equal.
      change (Urllib.split_on comma
                (32%N :: Re.join (comma :: [32%N])
                           (render_pair kv'' :: map render_pair ps)) [])
        with (Urllib.split_on comma
                (Re.join (comma :: [32%N])
                   (render_pair kv'' :: map render_pair ps)) [32%N]).
      by apply IH.
Qed.

Lemma dict_of_pairs_items (ps : list (pystr * pystr)) (i : nat)
    (d : gmap (list N) (list N)) :
  dict_of (map (λ kv, [fst kv; snd kv]) ps) i d
  = inr (foldl (λ d kv, <[fst kv := snd kv]> d) d ps).
Proof.
  revert i d. induction ps as [|[k v] ps IH]; intros i d; [done|].
  cbn [map dict_of foldl fst snd]. apply IH.
Qed.

(** X15. Round trip: the text ["k1=v1, k2=v2, ..."] of plain pairs gives back
    the dict of these pairs, a later pair replacing an earlier one with
    the same key. *)
Theorem string_to_dict_render (ps : list (pystr * pystr)) :
  ps ≠ [] → Forall plain ps →
  string_to_dict (Some (render ps)) = RDict (dict_of_pairs ps).
Proof.
  intros Hne Hall. destruct ps as [|kv ps]; [done|]. clear Hne.
  unfold string_to_dict.
  assert (Hnonempty : render (kv :: ps) ≠ []).
  { intros Hr. pose proof (split_comma_render kv ps Hall) as Hs.
    rewrite Hr in Hs. injection Hs as Hs _.
    destruct (render_pair_ends kv (Forall_inv Hall)) as [(c & s & Hc & _) _].
    congruence. }
  rewrite bool_decide_eq_false_2 by done. cbv zeta.
  rewrite (split_comma_render kv ps Hall).
  assert (Hpieces : map strip (render_pair kv
                       :: map (λ kv', 32%N :: render_pair kv') ps)
                    = map render_pair (kv :: ps)).
  { cbn [map]. rewrite (strip_render_pair kv (Forall_inv Hall)). f_equal.
    apply Forall_inv_tail in Hall. rewrite map_map.
    apply map_ext_Forall. eapply Forall_impl; [exact Hall|].
    intros kv' Hp. by apply strip_space_render_pair. }
  rewrite Hpieces, map_map.
  rewrite (map_ext_Forall _ (λ kv, [fst kv; snd kv]))
    by (eapply Forall_impl; [exact Hall|];
        intros kv' Hp; by apply split_equals_render_pair).
  by rewrite dict_of_pairs_items.
Qed.

Lemma plain_location :
  Forall plain [(py "latitude", py "41.4"); (py "longitude", py "2.2")].
Proof.
  repeat constructor; cbn [fst snd];
    try (apply (bool_decide_unpack _); vm_compute; reflexivity);
    intros c k Hk.
  - injection Hk as <- _. apply (bool_decide_unpack _). vm_compute. reflexivity.
  - assert (c = 52%N) as ->.
    { apply (f_equal (@rev N)) in Hk. rewrite rev_app_distr in Hk.
      by injection Hk. }
    apply (bool_decide_unpack _). vm_compute. reflexivity.
  - injection Hk as <- _. apply (bool_decide_unpack _). vm_compute. reflexivity.
  - assert (c = 50%N) as ->.
    { apply (f_equal (@rev N)) in Hk. rewrite rev_app_distr in Hk.
      by injection Hk. }
    apply (bool_decide_unpack _). vm_compute. reflexivity.
Qed.

Lemma string_to_dict_render_witness :
  string_to_dict (Some (py "latitude=41.4, longitude=2.2"))
  = RDict (<[py "longitude" := py "2.2"]> (<[py "latitude" := py "41.4"]> ∅)).
Proof.
  exact (string_to_dict_render
           [(py "latitude", py "41.4"); (py "longitude", py "2.2")]
           ltac:(discriminate) plain_location).
Defined.

End StringToDictFacts.

(** ** [get_first_existing_filename] and [get_standard_filename] *)

Module PathsFacts.
Import Paths.

Section WithFiles.
Variable exists_ : pystr → bool.

(** X16. [get_first_existing_filename] returns the path under the first prefix
    for which it exists: no earlier prefix has the file; and it returns
    [None] exactly when no prefix has it. *)
Theorem get_first_existing_filename_first (prefixes : list pystr)
    (relative_path : pystr) :
  match get_first_existing_filename exists_ prefixes relative_path with
  | Some path =>
      exists_ path = true
      ∧ ∃ before prefix after,
          prefixes = before ++ prefix :: after
          ∧ path = join prefix relative_path
          ∧ Forall (λ q, exists_ (join q relative_path) = false) before
  | None => Forall (λ q, exists_ (join q relative_path) = false) prefixes
  end.
Proof.
  induction prefixes as [|prefix prefixes IH]; [by constructor|].
  cbn [get_first_existing_filename]. cbv zeta.
  destruct (exists_ (join prefix relative_path)) eqn:He.
  - split; [done|]. exists [], prefix, prefixes.
    split; [done|]. split; [done|]. constructor.
  - destruct (get_first_existing_filename exists_ prefixes relative_path)
      as [path|].
    + destruct IH as (Hp & before & q & after & -> & -> & Hall).
      split; [done|]. exists (prefix :: before), q, after.
      split; [done|]. split; [done|]. by constructor.
    + by constructor.
Qed.

(** X17. A path that [get_standard_filename] returns exists, and it is one of
    four: the name under the working directory or under the home directory,
    or [share/youtube_upload/client_secrets.json] under [sys.prefix] or
    under its [local]; the last two do not depend on the name asked for. *)
Theorem get_standard_filename_found (env : environ) (fname path : pystr) :
  get_standard_filename exists_ env fname = Some path →
  exists_ path = true
  ∧ path ∈ [join (getcwd env) fname; join (home env) fname;
            join (prefix env) client_secrets_json;
            join (join (prefix env) (py "local")) client_secrets_json].
Proof.
  unfold get_standard_filename. cbv zeta. cbn [first_existing].
  destruct (exists_ (join (getcwd env) fname)) eqn:H1; cbn [negb].
  { intros [= <-]. split; [done|]. apply list_elem_of_here. }
  destruct (exists_ (join (home env) fname)) eqn:H2; cbn [negb].
  { intros [= <-]. split; [done|].
    apply list_elem_of_further, list_elem_of_here. }
  cbn [get_first_existing_filename]. cbv zeta.
  destruct (exists_ (join (prefix env) client_secrets_json)) eqn:H3.
  { intros [= <-]. split; [done|].
    do 2 apply list_elem_of_further. apply list_elem_of_here. }
  destruct (exists_ (join (join (prefix env) (py "local"))
                       client_secrets_json)) eqn:H4; [|done].
  intros [= <-]. split; [done|].
  do 3 apply list_elem_of_further. apply list_elem_of_here.
Qed.

End WithFiles.

Import MoreExamples.

Lemma get_standard_filename_found_witness :
  only_local (py "/usr/local/share/youtube_upload/client_secrets.json") = true
  ∧ py "/usr/local/share/youtube_upload/client_secrets.json"
    ∈ [join (getcwd environ) (py "secrets.json");
       join (home environ) (py "secrets.json");
       join (prefix environ) client_secrets_json;
       join (join (prefix environ) (py "local")) client_secrets_json].
Proof.
  exact (get_standard_filename_found only_local environ (py "secrets.json")
           (py "/usr/local/share/youtube_upload/client_secrets.json")
           eq_refl).
Defined.

End PathsFacts.

(** ** [main.py] *)

Module MainFacts.
Import Main.

Lemma written_app (t t' : list event) :
  written (t ++ t') = written t ++ written t'.
Proof. induction t as [|[] t IH]; cbn; by rewrite ?IH. Qed.

Lemma uploaded_app (t t' : list event) :
  uploaded (t ++ t') = uploaded t ++ uploaded t'.
Proof. induction t as [|[| | |? ? []| | | | |] t IH]; cbn; by rewrite ?IH. Qed.

Lemma bodies_app (t t' : list event) :
  bodies (t ++ t') = bodies t ++ bodies t'.
Proof. induction t as [|[] t IH]; cbn; by rewrite ?IH. Qed.

Lemma finishes_app (t t' : list event) :
  finishes (t ++ t') = (finishes t + finishes t')%nat.
Proof. induction t as [|[] t IH]; cbn; by rewrite ?IH. Qed.

Section WithWorld.
Variable w : world.

Lemma split_nonempty (c : N) (s : pystr) : Str.split c s ≠ [].
Proof.
  intros H. apply (f_equal length) in H.
  rewrite StringToDictFacts.length_split in H. done.
Qed.

(** One call of [upload_youtube_video]: nothing is written to [output];
    [upload] is called at most once, with a body as [body_ok] says, and
    [progress.finish()] as often; the id returned is the one [upload]
    gave. *)
Lemma upload_youtube_video_events (o : options) (video_path : pystr)
    (total_videos index : nat) :
  let r := fst (upload_youtube_video w o video_path total_videos index) in
  let t := snd (upload_youtube_video w o video_path total_videos index) in
  written t = []
  ∧ uploaded t = match r with inr video_id => [video_id] | inl _ => [] end
  ∧ Forall (body_ok o total_videos) (bodies t)
  ∧ finishes t = length (bodies t).
Proof.
  unfold upload_youtube_video, get_category_id, location_dict, body_ok.
  cbv zeta.
  pose proof (split_nonempty Str.comma) as Hs.
  assert (Hm : ∀ s, map Str.strip (Str.split Str.comma s) ≠ []).
  { intros s H. apply fmap_nil_inv in H. by apply Hs in H. }
  branches; repeat split; try done; try constructor; repeat split;
    try done; try apply Hm;
    try (intros Hle;
         match goal with
         | H : (1 <? _)%nat = true |- _ => apply Nat.ltb_lt in H; lia
         end).
Qed.

(** One turn of the loop of [run_main]. *)
Lemma run_video_events (o : options) (total_videos index : nat)
    (video_path : pystr) :
  let r := fst (run_video w o total_videos index video_path) in
  let t := snd (run_video w o total_videos index video_path) in
  match r with
  | inr _ => ∃ video_id, uploaded t = [video_id]
                         ∧ written t = [output_line video_id]
  | inl _ => written t = [] ∧ (length (uploaded t) ≤ 1)%nat
  end
  ∧ Forall (body_ok o total_videos) (bodies t)
  ∧ finishes t = length (bodies t).
Proof.
  unfold run_video.
  pose proof (upload_youtube_video_events o video_path total_videos index)
    as (Hw & Hu & Hb & Hf).
  destruct (upload_youtube_video w o video_path total_videos index)
    as [[e|video_id] t0]; cbn [fst snd] in Hw, Hu, Hb, Hf.
  - cbn. rewrite Hw, Hu. split; [split; [done|cbn; lia]|done].
  - unfold output_line.
    branches;
      rewrite ?written_app, ?uploaded_app, ?bodies_app, ?finishes_app,
        ?Hw, ?Hu; cbn [written uploaded bodies finishes app length];
      rewrite ?app_nil_r, ?Nat.add_0_r;
      (split; [first [by eexists | split; [done|cbn; lia]] | done]).
Qed.

(** The loop of [run_main], from any index on: the ids written are those
    uploaded, in order, but for the last when the turn after its upload
    failed. *)
Lemma run_videos_events (o : options) (total_videos index : nat)
    (args : list pystr) :
  let r := fst (run_videos w o total_videos index args) in
  let t := snd (run_videos w o total_videos index args) in
  (∃ ids rest,
      uploaded t = ids ++ rest ∧ written t = map output_line ids
      ∧ (length rest ≤ 1)%nat
      ∧ match r with
        | inr _ => rest = [] ∧ length ids = length args
        | inl _ => (length ids < length args)%nat
        end)
  ∧ Forall (body_ok o total_videos) (bodies t)
  ∧ finishes t = length (bodies t).
Proof.
  revert index. induction args as [|video_path args IH]; intros index.
  - cbn. split; [|split; [constructor|done]].
    exists [], []. cbn. repeat split; try done. lia.
  - cbn [run_videos].
    pose proof (run_video_events o total_videos index video_path)
      as (H1 & Hb1 & Hf1).
    destruct (run_video w o total_videos index video_path)
      as [[e|[]] t1]; cbn [fst snd] in H1, Hb1, Hf1.
    + cbn [bind fst snd]. destruct H1 as [Hw Hu].
      split; [|done]. exists [], (uploaded t1).
      rewrite Hw. cbn. repeat split; try done. lia.
    + specialize (IH (S index)).
      destruct (run_videos w o total_videos (S index) args) as [r2 t2].
      cbn [bind fst snd] in *.
      destruct IH as ((ids & rest & Hu2 & Hw2 & Hl & Hr) & Hb2 & Hf2).
      destruct H1 as (video_id & Hu1 & Hw1).
      rewrite written_app, uploaded_app, bodies_app, finishes_app.
      rewrite Hu1, Hw1, Hu2, Hw2, Hf1, Hf2, length_app.
      split; [|split; [by apply Forall_app|done]].
      exists (video_id :: ids), rest. repeat split; try done.
      destruct r2; cbn; [lia|]. destruct Hr as [-> ->]. done.
Qed.

Lemma parse_options_error_events (o : options) :
  let t := snd (parse_options_error o) in
  written t = [] ∧ uploaded t = [] ∧ bodies t = [] ∧ finishes t = 0%nat.
Proof. unfold parse_options_error. by branches. Qed.

Lemma get_youtube_handler_events (o : options) :
  let t := snd (get_youtube_handler w o) in
  written t = [] ∧ uploaded t = [] ∧ bodies t = [] ∧ finishes t = 0%nat.
Proof. unfold get_youtube_handler. cbv zeta. by branches. Qed.

Lemma run_main_events (o : options) (args : list pystr) :
  let r := fst (run_main w o args) in
  let t := snd (run_main w o args) in
  (∃ ids rest,
      uploaded t = ids ++ rest ∧ written t = map output_line ids
      ∧ (length rest ≤ 1)%nat
      ∧ match r with
        | inr _ => rest = [] ∧ length ids = length args
        | inl _ => True
        end)
  ∧ Forall (body_ok o (length args)) (bodies t)
  ∧ finishes t = length (bodies t).
Proof.
  unfold run_main.
  pose proof (parse_options_error_events o) as (Pw & Pu & Pb & Pf).
  destruct (parse_options_error o) as [[e|[]] t0]; cbn [bind fst snd] in *.
  { rewrite Pw, Pu, Pb, Pf. split; [|split; [constructor|done]].
    exists [], []. cbn. repeat split; try done. lia. }
  pose proof (get_youtube_handler_events o) as (Gw & Gu & Gb & Gf).
  destruct (get_youtube_handler w o) as [[e|[|]] t1]; cbn [bind fst snd] in *.
  { rewrite written_app, uploaded_app, bodies_app, finishes_app.
    rewrite Pw, Pu, Pb, Pf, Gw, Gu, Gb, Gf. split; [|split; [constructor|done]].
    exists [], []. cbn. repeat split; try done. lia. }
  - pose proof (run_videos_events o (length args) 0 args) as (Hv & Hb & Hf).
    destruct (run_videos w o (length args) 0 args) as [r2 t2].
    cbn [fst snd] in *.
    rewrite !written_app, !uploaded_app, !bodies_app, !finishes_app.
    rewrite Pw, Pu, Pb, Pf, Gw, Gu, Gb, Gf. cbn [app Nat.add].
    split; [|done].
    destruct Hv as (ids & rest & Hu & Hw & Hl & Hr).
    exists ids, rest. repeat split; try done. by destruct r2.
  - cbn. rewrite !written_app, !uploaded_app, !bodies_app, !finishes_app.
    rewrite Pw, Pu, Pb, Pf, Gw, Gu, Gb, Gf. cbn.
    split; [|split; [constructor|done]].
    exists [], []. cbn. repeat split; try done. lia.
Qed.

(** X18. What [run_main] writes to [output] are the ids that [upload]
    returned, one on each line, in the order of the uploads; only the id
    of the last upload can be missing, when a later step for that video
    failed; and when [run_main] returns, every argument has its line. *)
Theorem run_main_written (o : options) (args : list pystr) :
  ∃ ids rest,
    uploaded (snd (run_main w o args)) = ids ++ rest
    ∧ written (snd (run_main w o args)) = map output_line ids
    ∧ (length rest ≤ 1)%nat
    ∧ (∀ v, fst (run_main w o args) = inr v →
            rest = [] ∧ length ids = length args).
Proof.
  destruct (run_main_events o args) as ((ids & rest & Hu & Hw & Hl & Hr) & _).
  exists ids, rest. split; [done|]. split; [done|]. split; [done|].
  intros v Hv. by rewrite Hv in Hr.
Qed.

(** X19. Every request body that [run_main] hands to [upload]: the video is
    private when a publication date is given, whatever the privacy option
    says, and has the privacy of the options otherwise; a single video
    keeps the title of the options, the template is not applied; the list
    of tags is never empty. *)
Theorem run_main_bodies (o : options) (args : list pystr) :
  Forall (body_ok o (length args)) (bodies (snd (run_main w o args))).
Proof. by destruct (run_main_events o args) as (_ & Hb & _). Qed.

(** X20. [progress.finish()] is called once for every call of [upload],
    whether the upload returned or raised. *)
Theorem run_main_finishes (o : options) (args : list pystr) :
  finishes (snd (run_main w o args))
  = length (bodies (snd (run_main w o args))).
Proof. by destruct (run_main_events o args) as (_ & _ & Hf). Qed.

(** X21. The exit status of [run]: when [catch_exceptions] returns a code it
    is 0, 2, 3, 4 or 5, and it is 0 exactly when [run_main] returned. *)
Theorem run_exit_status (o : options) (args : list pystr) (code : Z) :
  fst (run w o args) = Catch.Exit code →
  code ∈ [0; 2; 3; 4; 5]
  ∧ (code = 0 ↔ ∃ v, fst (run_main w o args) = inr v).
Proof.
  unfold run. destruct (run_main w o args) as [[e|v] t]; cbn [fst].
  - pose proof (CatchFacts.exit_code_raised (R := unit) EXIT_CODES e code)
      as Hrange.
    destruct (Catch.catch_exceptions EXIT_CODES (Retry.Raises e))
      as [status lines].
    cbn [fst] in *. intros ->. specialize (Hrange eq_refl).
    cbn in Hrange. rewrite !elem_of_cons, elem_of_nil in Hrange.
    split; [rewrite !elem_of_cons; lia|].
    split; [lia|by intros [? [=]]].
  - cbn. intros [= <-]. split; [apply list_elem_of_here|].
    split; [by eexists|done].
Qed.

(** X22. With a title that is [None] or empty, [run_main] under
    [catch_exceptions] prints the usage, [debug] gets the line of the
    [OptionsError] and the exit code is 2; no collaborator is called: no
    credentials are looked for and nothing is uploaded. *)
Theorem run_missing_title (o : options) (args : list pystr) :
  given (title o) = false →
  run w o args
  = (Catch.Exit 2,
     [PrintUsage;
      Debug (py "[OptionsError] Some required option are missing: title")]).
Proof.
  intros Ht. unfold run, run_main, parse_options_error. rewrite Ht.
  reflexivity.
Qed.



End WithWorld.

Import MoreExamples.

(** Two videos, every collaborator doing its work: both ids are written. *)
Example run_two_videos :
  fst (run good_world plain_options [py "a.flv"; py "b.flv"]) = Catch.Exit 0
  ∧ written (snd (run_main good_world plain_options [py "a.flv"; py "b.flv"]))
    = [output_line (py "video0"); output_line (py "video1")].
Proof. split; vm_compute; reflexivity. Qed.

(** The second upload fails: the first id has been written, the exit code
    is 3. *)
Example run_second_fails :
  run second_fails plain_options [py "a.flv"; py "b.flv"; py "c.flv"]
  = (Catch.Exit 3,
     snd (run_main second_fails plain_options
            [py "a.flv"; py "b.flv"; py "c.flv"])
     ++ [Debug (py "[RequestError] Server response: quota")])
  ∧ written (snd (run_main second_fails plain_options
                    [py "a.flv"; py "b.flv"; py "c.flv"]))
    = [output_line (py "video0")].
Proof. split; vm_compute; reflexivity. Qed.

Lemma run_exit_status_witness :
  (3 : Z) ∈ [0; 2; 3; 4; 5]
  ∧ ((3 : Z) = 0
     ↔ ∃ v, fst (run_main second_fails plain_options
                   [py "a.flv"; py "b.flv"; py "c.flv"]) = inr v).
Proof.
  exact (run_exit_status second_fails plain_options
           [py "a.flv"; py "b.flv"; py "c.flv"] 3 eq_refl).
Defined.

Lemma run_missing_title_witness :
  run good_world
    (mkOptions None None None None (Some (py "public")) None None None None
       (py "{title} [{n}/{total}]") None None false false)
    [py "a.flv"]
  = (Catch.Exit 2,
     [PrintUsage;
      Debug (py "[OptionsError] Some required option are missing: title")]).
Proof.
  exact (run_missing_title good_world
           (mkOptions None None None None (Some (py "public")) None None None
              None (py "{title} [{n}/{total}]") None None false false)
           [py "a.flv"] eq_refl).
Defined.



(** With the category known, a date of publication and a playlist that
    cannot be changed: the video is uploaded as private, with its tags
    split and stripped, and its id is not written, since the playlist step
    failed after the upload. *)
Example run_music :
  bodies (snd (run_main music_world music_options [py "a.flv"]))
  = [mkBody (Some (py "Concert")) (Some (py "Live")) (Some (py "10"))
       [py "mutter"; py "beethoven"] (Some (py "private"))
       (Some (py "2030-01-01T00:00:00.0Z"))
       (StringToDict.string_to_dict (Some (py "latitude=41.4,longitude=2.2")))]
  ∧ uploaded (snd (run_main music_world music_options [py "a.flv"]))
    = [py "video0"]
  ∧ written (snd (run_main music_world music_options [py "a.flv"])) = []
  ∧ fst (run music_world music_options [py "a.flv"])
    = Catch.Propagated (mkYexn HttpError (py "forbidden")).
Proof. repeat split; vm_compute; reflexivity. Qed.

End MainFacts.

(** ** From a video id to its watch URL and back *)

Module WatchUrl.
Import Validate ValidateFacts Extract Builtins.

Section WithCodecs.
Variable cd : Urllib.codecs.
Variable files : pystr → pyexn + list pystr.

Lemma valid_chars (vid : pystr) (c : N) :
  check_valid_id vid = true → in_alphabetb c = false → c ∉ vid.
Proof.
  intros Hv Hc Hin. unfold check_valid_id in Hv. cbv zeta in Hv.
  apply andb_true_iff in Hv as [_ Hall].
  apply bool_decide_eq_true, subset_vid_chars in Hall.
  rewrite Forall_forall in Hall. apply Hall, in_alphabetb_spec in Hin.
  congruence.
Qed.

Lemma find_notin (c : N) (s : pystr) : c ∉ s → Urllib.find c s = None.
Proof.
  induction s as [|x s IH]; [done|]. intros Hc.
  apply not_elem_of_cons in Hc as [Hx Hs]. simpl.
  rewrite (proj2 (N.eqb_neq x c)) by congruence. by rewrite IH.
Qed.

Lemma filter_safe (vid : pystr) :
  check_valid_id vid = true →
  filter (λ c, c ∉ Urllib.unsafe_url_bytes_to_remove) vid = vid.
Proof.
  intros Hv.
  assert (Hall : Forall (λ c, c ∉ Urllib.unsafe_url_bytes_to_remove) vid).
  { apply Forall_forall. intros c Hin Hc.
    assert (Hb : in_alphabetb c = false).
    { unfold Urllib.unsafe_url_bytes_to_remove in Hc.
      rewrite !elem_of_cons, elem_of_nil in Hc.
      destruct Hc as [->|[->|[->|[]]]]; reflexivity. }
    by apply (valid_chars vid c Hv Hb). }
  clear Hv. induction Hall as [|c vid Hc _ IH]; [done|].
  by rewrite filter_cons_True, IH.
Qed.

(** [urlparse] finds no scheme, host, query or fragment in a valid id. *)
Lemma urlparse_valid_id (vid : pystr) :
  check_valid_id vid = true →
  Urllib.urlparse cd vid = inr (mkParseResult [] [] vid [] [] []).
Proof.
  intros Hv.
  pose proof (valid_chars vid _ Hv (eq_refl : in_alphabetb Urllib.colon = false))
    as Hcolon.
  pose proof (valid_chars vid _ Hv (eq_refl : in_alphabetb Urllib.slash = false))
    as Hslash.
  pose proof (valid_chars vid _ Hv (eq_refl : in_alphabetb Urllib.hash = false))
    as Hhash.
  pose proof (valid_chars vid _ Hv
                (eq_refl : in_alphabetb Urllib.question = false)) as Hq.
  pose proof (valid_chars vid _ Hv
                (eq_refl : in_alphabetb Urllib.semicolon = false)) as Hsemi.
  unfold Urllib.urlparse, Urllib.urlsplit.
  assert (Hl : lstrip Urllib.whatwg_c0_control_or_space vid = vid).
  { destruct vid as [|c vid]; [done|]. cbn [lstrip].
    unfold char_in. rewrite bool_decide_eq_false_2; [done|].
    intros Hc. apply (valid_chars (c :: vid) c Hv); [|apply list_elem_of_here].
    unfold Urllib.whatwg_c0_control_or_space in Hc.
    apply list_elem_of_fmap in Hc as (n & -> & Hn).
    apply elem_of_seq in Hn.
    unfold in_alphabetb.
    repeat (apply orb_false_intro); try apply andb_false_iff;
      rewrite ?N.leb_gt, ?N.eqb_neq; lia. }
  rewrite Hl, (filter_safe vid Hv), (find_notin _ _ Hcolon). cbv zeta.
  assert (H2 : bool_decide (take 2 vid = py "//") = false).
  { apply bool_decide_eq_false. destruct vid as [|c vid]; [done|].
    intros H. apply not_elem_of_cons in Hslash as [Hs _].
    destruct vid; injection H as ->; done. }
  rewrite H2.
  unfold Urllib.split_once.
  rewrite (find_notin _ _ Hhash). cbn [fmap option_fmap option_map].
  rewrite (find_notin _ _ Hq). cbn [fmap option_fmap option_map].
  change (Urllib.checknetloc cd []) with (@None pyexn).
  cbv beta iota. cbn [Urllib.s_scheme Urllib.s_netloc Urllib.s_path
                      Urllib.s_query Urllib.s_fragment].
  unfold char_in. rewrite (bool_decide_eq_false_2 _ Hsemi), andb_false_r.
  reflexivity.
Qed.

Lemma find_app_l (c : N) (p v : pystr) (i : nat) :
  Urllib.find c p = Some i → Urllib.find c (p ++ v) = Some i.
Proof.
  revert i. induction p as [|x p IH]; intros i; [done|]. simpl.
  destruct (x =? c)%N; [done|].
  destruct (Urllib.find c p) as [j|]; [|done].
  intros [= <-]. by rewrite (IH j).
Qed.

Lemma find_app_notin (c : N) (p v : pystr) :
  Urllib.find c p = None → c ∉ v → Urllib.find c (p ++ v) = None.
Proof.
  intros Hp Hv. induction p as [|x p IH]; [by apply find_notin|].
  simpl in *. destruct (x =? c)%N; [done|].
  destruct (Urllib.find c p); [done|]. by rewrite IH.
Qed.

(** [urlparse] on the watch URL of a valid id. *)
Lemma urlparse_watch_url (vid : pystr) :
  check_valid_id vid = true →
  Urllib.urlparse cd (Main.watch_video_url vid)
  = inr (mkParseResult (py "https") (py "www.youtube.com") (py "/watch") []
           (py "v=" ++ vid) []).
Proof.
  intros Hv.
  pose proof (valid_chars vid _ Hv (eq_refl : in_alphabetb Urllib.hash = false))
    as Hhash.
  unfold Urllib.urlparse, Urllib.urlsplit, Main.watch_video_url.
  assert (Hl : lstrip Urllib.whatwg_c0_control_or_space
                 (Main.WATCH_VIDEO_URL ++ vid)
               = Main.WATCH_VIDEO_URL ++ vid) by reflexivity.
  rewrite Hl, filter_app, (filter_safe vid Hv).
  assert (Hf : filter (λ c, c ∉ Urllib.unsafe_url_bytes_to_remove)
                 Main.WATCH_VIDEO_URL = Main.WATCH_VIDEO_URL)
    by (vm_compute; reflexivity).
  rewrite Hf.
  rewrite (find_app_l Urllib.colon Main.WATCH_VIDEO_URL vid 5 eq_refl).
  assert (Hhead : ∃ t, Main.WATCH_VIDEO_URL ++ vid = 104%N :: t)
    by (eexists; reflexivity).
  destruct Hhead as [t Ht].
  assert (Htake : take 5 (Main.WATCH_VIDEO_URL ++ vid) = py "https")
    by reflexivity.
  assert (Hdrop : drop 6 (Main.WATCH_VIDEO_URL ++ vid)
                  = py "//www.youtube.com/watch?v=" ++ vid) by reflexivity.
  rewrite Htake, Hdrop, Ht.
  assert (Hsch : Urllib.isascii_alpha 104
                 && forallb (λ c, char_in c Urllib.scheme_chars) (py "https")
                 = true) by (vm_compute; reflexivity).
  rewrite Hsch.
  assert (Hlow : Urllib.lower (py "https") = py "https")
    by (vm_compute; reflexivity).
  rewrite Hlow. cbv beta iota zeta.
  assert (Hss : bool_decide (take 2 (py "//www.youtube.com/watch?v=" ++ vid)
                             = py "//") = true) by reflexivity.
  rewrite Hss.
  assert (Hnet : Urllib.splitnetloc (py "//www.youtube.com/watch?v=" ++ vid) 2
                 = (py "www.youtube.com", py "/watch?v=" ++ vid)).
  { unfold Urllib.splitnetloc, Urllib.find_from.
    assert (Hd2 : drop 2 (py "//www.youtube.com/watch?v=" ++ vid)
                  = py "www.youtube.com/watch?v=" ++ vid) by reflexivity.
    rewrite Hd2. cbn [foldl].
    rewrite (find_app_l Urllib.slash (py "www.youtube.com/watch?v=") vid 15
               eq_refl).
    rewrite (find_app_l Urllib.question (py "www.youtube.com/watch?v=") vid 21
               eq_refl).
    rewrite (find_app_notin Urllib.hash (py "www.youtube.com/watch?v=") vid
               eq_refl Hhash).
    cbn [fmap option_fmap option_map].
    rewrite length_app.
    replace (((length (py "//www.youtube.com/watch?v=") + length vid)%nat
              `min` (2 + 15)%nat) `min` (2 + 21)%nat)%nat
      with 17%nat by (cbn; lia).
    reflexivity. }
  rewrite Hnet. cbv beta iota zeta.
  assert (Hbr : char_in Urllib.lbracket (py "www.youtube.com") = false
                ∧ char_in Urllib.rbracket (py "www.youtube.com") = false)
    by (split; vm_compute; reflexivity).
  destruct Hbr as [-> ->]. cbn [andb orb negb].
  unfold Urllib.split_once.
  rewrite (find_app_notin Urllib.hash (py "/watch?v=") vid eq_refl Hhash).
  cbn [fmap option_fmap option_map].
  rewrite (find_app_l Urllib.question (py "/watch?v=") vid 6 eq_refl).
  cbn [fmap option_fmap option_map].
  assert (Hck : Urllib.checknetloc cd (py "www.youtube.com") = None)
    by (vm_compute; reflexivity).
  rewrite Hck.
  assert (Htq : take 6 (py "/watch?v=" ++ vid) = py "/watch") by reflexivity.
  assert (Hdq : drop 7 (py "/watch?v=" ++ vid) = py "v=" ++ vid)
    by reflexivity.
  rewrite Htq, Hdq.
  cbn [Urllib.s_scheme Urllib.s_netloc Urllib.s_path Urllib.s_query
       Urllib.s_fragment].
  assert (Hpar : bool_decide (py "https" ∈ Urllib.uses_params)
                 && char_in Urllib.semicolon (py "/watch") = false)
    by (vm_compute; reflexivity).
  rewrite Hpar. reflexivity.
Qed.

Lemma replace_char_notin (c d : N) (s : pystr) :
  c ∉ s → Urllib.replace_char c d s = s.
Proof.
  induction s as [|x s IH]; [done|]. intros Hc.
  apply not_elem_of_cons in Hc as [Hx Hs]. unfold Urllib.replace_char in *.
  cbn [map]. rewrite (proj2 (N.eqb_neq x c)) by congruence. by rewrite IH.
Qed.

(** The query [v=<id>] has the one parameter [v], with the id as its
    value. *)
Lemma parse_qs_v (vid : pystr) :
  check_valid_id vid = true →
  Urllib.parse_qs cd (py "v=" ++ vid) !! py "v" = Some (vid, []).
Proof.
  intros Hv.
  pose proof (valid_chars vid _ Hv
                (eq_refl : in_alphabetb Urllib.ampersand = false)) as Hamp.
  pose proof (valid_chars vid _ Hv
                (eq_refl : in_alphabetb Urllib.plus = false)) as Hplus.
  pose proof (valid_chars vid _ Hv
                (eq_refl : in_alphabetb Urllib.percent = false)) as Hpct.
  pose proof (ExtractFacts.check_valid_id_nonempty vid Hv) as Hne.
  unfold Urllib.parse_qs, Urllib.parse_qsl.
  rewrite (bool_decide_eq_false_2 (py "v=" ++ vid = [])) by done.
  cbv zeta.
  rewrite (StringToDictFacts.split_on_notin Urllib.ampersand (py "v=" ++ vid) []);
    [|rewrite elem_of_app; intros [H|H]; [|done];
      revert H; apply (bool_decide_unpack _); vm_compute; reflexivity].
  cbn [app foldl].
  rewrite (bool_decide_eq_false_2 (py "v=" ++ vid = [])) by done.
  unfold Urllib.split_once.
  rewrite (find_app_l Urllib.equals (py "v=") vid 1 eq_refl).
  cbn [fmap option_fmap option_map].
  assert (Ht : take 1 (py "v=" ++ vid) = py "v") by reflexivity.
  assert (Hd : drop 2 (py "v=" ++ vid) = vid) by reflexivity.
  rewrite Ht, Hd, (bool_decide_eq_false_2 (vid = [])) by done.
  rewrite (replace_char_notin _ _ vid Hplus).
  assert (Hrv : Urllib.replace_char Urllib.plus Urllib.space (py "v") = py "v")
    by reflexivity.
  rewrite Hrv. unfold Urllib.unquote, char_in.
  rewrite (bool_decide_eq_false_2 _ Hpct). cbn [negb].
  rewrite (bool_decide_eq_false_2 (Urllib.percent ∈ py "v"))
    by (apply (bool_decide_unpack _); vm_compute; reflexivity).
  cbn [negb app foldl]. rewrite lookup_empty. apply lookup_insert_eq.
Qed.

(** X25. Round trip between [main.py] and [lib.py]: [filter_vid] accepts a
    valid id as it is, and gets it back from the watch URL that
    [run_main] forms for it. *)
Theorem filter_vid_watch_url (vid : pystr) :
  check_valid_id vid = true →
  @filter_vid pyexn (UrllibLibrary.library cd files) vid = inr (PyStr vid)
  ∧ @filter_vid pyexn (UrllibLibrary.library cd files)
      (Main.watch_video_url vid)
    = inr (PyStr vid).
Proof.
  intros Hv. unfold filter_vid. cbn [urlparse parse_qs UrllibLibrary.library].
  split.
  - rewrite (urlparse_valid_id vid Hv). cbn. by rewrite Hv.
  - rewrite (urlparse_watch_url vid Hv). cbn [scheme query].
    rewrite (bool_decide_eq_false_2 (py "https" = [])) by done. cbn [negb].
    rewrite (parse_qs_v vid Hv). by rewrite Hv.
Qed.

End WithCodecs.

Lemma filter_vid_watch_url_witness :
  @filter_vid pyexn
    (UrllibLibrary.library Examples.plain_codecs Examples.files)
    (py "dQw4w9WgXcQ") = inr (PyStr (py "dQw4w9WgXcQ"))
  ∧ @filter_vid pyexn
      (UrllibLibrary.library Examples.plain_codecs Examples.files)
      (py "https://www.youtube.com/watch?v=dQw4w9WgXcQ")
    = inr (PyStr (py "dQw4w9WgXcQ")).
Proof.
  exact (filter_vid_watch_url Examples.plain_codecs Examples.files
           (py "dQw4w9WgXcQ") eq_refl).
Defined.

End WatchUrl.
